(** * slackline: a relay between linked Slack channels

    A shallow embedding of [slackline.go] and the properties of its
    routing core: configuration construction, token verification, mention
    rewriting, forwarding and the [/bridge] handler. *)

From Stdlib Require Import Ascii ZArith Lia.
From stdpp Require Import strings base option list countable gmap.


(** ** Go runtime: panics *)

(** The three ways the program can panic: a slice index out of range, a nil
    pointer dereference, and the explicit [panic] of [GetConfiguration]
    (carrying the formatted channel string). *)
Inductive panic : Type :=
  | IndexOutOfRange
  | NilDereference
  | AlreadyPresent (channel_str : string).

Inductive outcome (A : Type) : Type :=
  | Ret (a : A)
  | Panicked (p : panic).
Arguments Ret {A} a.
Arguments Panicked {A} p.

Definition is_panic {A} (o : outcome A) : Prop :=
  match o with Ret _ => False | Panicked _ => True end.

#[global] Instance outcome_ret : MRet outcome := fun A a => Ret a.
#[global] Instance outcome_bind : MBind outcome := fun A B k o =>
  match o with
  | Ret a => k a
  | Panicked p => Panicked p
  end.

(** [l[i]] on a slice: panics out of range. *)
Definition index {A} (l : list A) (i : nat) : outcome A :=
  match l !! i with
  | Some x => Ret x
  | None => Panicked IndexOutOfRange
  end.

(** ** Go strings *)

(** [strings.Split(s, sep)] for a one-byte separator, the only kind the
    program uses ([","], [":"], ["/"] and ["|"]). *)
Fixpoint Split (s : string) (sep : ascii) : list string :=
  match s with
  | EmptyString => [EmptyString]
  | String a s' =>
      if decide (a = sep) then EmptyString :: Split s' sep
      else match Split s' sep with
           | [] => [String a EmptyString]
           | p :: ps => String a p :: ps
           end
  end.

(** [strings.Contains(s, sep)] for a one-byte [sep]. *)
Fixpoint Contains (s : string) (sep : ascii) : bool :=
  match s with
  | EmptyString => false
  | String a s' => if decide (a = sep) then true else Contains s' sep
  end.

(** [s[lo:hi]]: panics unless [lo <= hi <= len(s)]. *)
Definition slice (s : string) (lo hi : Z) : outcome string :=
  if decide (0 <= lo /\ lo <= hi /\ hi <= Z.of_nat (String.length s))%Z
  then Ret (String.substring (Z.to_nat lo) (Z.to_nat (hi - lo)) s)
  else Panicked IndexOutOfRange.

(** ** Teams and channels *)

(** [Team]: the embedded [*slack.Client] is represented by the API token
    it was created from with [slack.New]. *)
Record Team : Type := mkTeam {
  Id : string;
  Client : string;
  IncomingToken : string
}.

Definition NewTeam (s : string) : outcome Team :=
  let parts := Split s ":" in
  p0 ← index parts 0;
  p1 ← index parts 1;
  p2 ← index parts 2;
  mret (mkTeam p0 p1 p2).

Record Channel : Type := mkChannel {
  TeamId : string;
  ChannelId : string
}.

#[global] Instance Channel_eq_dec : EqDecision Channel.
Proof. solve_decision. Defined.

#[global] Instance Channel_countable : Countable Channel :=
  inj_countable' (fun c => (TeamId c, ChannelId c))
                 (fun p => mkChannel p.1 p.2)
                 (fun c => match c with mkChannel _ _ => eq_refl end).

Definition MakeChannel (s : string) : outcome Channel :=
  let parts := Split s "/" in
  p0 ← index parts 0;
  p1 ← index parts 1;
  mret (mkChannel p0 p1).

(** ** Configuration *)

(** A [[]Channel] value is a reference to its backing array: the map
    entries of one group all hold the same reference.  [Arrays] is the
    store of backing arrays, a reference is an index into it. *)
Abbreviation slice_ref := nat (only parsing).
Abbreviation Arrays := (list (list Channel)) (only parsing).

Record Configuration : Type := mkConfiguration {
  teams : gmap string Team;
  channelMap : gmap Channel slice_ref;
  outboundTokens : gmap Channel string
}.

(** The process environment, as far as [GetConfiguration] reads it. *)
Record Environ : Type := mkEnviron {
  SLACKLINE_TEAMS : string;
  SLACKLINE_CHANNEL_MAP : string;
  SLACKLINE_OUTBOUND_TOKENS : string
}.

(** [make([]Channel, n)]: a fresh array of [n] zero channels. *)
Definition zero_Channel : Channel := mkChannel "" "".

Definition make (n : nat) (heap : Arrays) : slice_ref * Arrays :=
  (length heap, heap ++ [replicate n zero_Channel]).

(** [channels[key] = channel]. *)
Definition store (heap : Arrays) (channels : slice_ref) (key : nat)
    (channel : Channel) : outcome Arrays :=
  match heap !! channels with
  | Some arr =>
      if decide (key < length arr)
      then Ret (<[channels := <[key := channel]> arr]> heap)
      else Panicked IndexOutOfRange
  | None => Panicked NilDereference
  end.

(** First loop of [GetConfiguration] (lines 68-71). *)
Fixpoint load_teams (team_strs : list string) (teams : gmap string Team)
    : outcome (gmap string Team) :=
  match team_strs with
  | [] => Ret teams
  | team_str :: rest =>
      team ← NewTeam team_str;
      load_teams rest (<[Id team := team]> teams)
  end.

(** Inner loop over one group (lines 79-88). *)
Fixpoint load_group (channel_strs : list string) (key : nat)
    (channels : slice_ref) (channelMap : gmap Channel slice_ref)
    (heap : Arrays) : outcome (gmap Channel slice_ref * Arrays) :=
  match channel_strs with
  | [] => Ret (channelMap, heap)
  | channel_str :: rest =>
      channel ← MakeChannel channel_str;
      heap' ← store heap channels key channel;
      match channelMap !! channel with
      | None =>
          load_group rest (S key) channels
                     (<[channel := channels]> channelMap) heap'
      | Some _ => Panicked (AlreadyPresent channel_str)
      end
  end.

(** Outer loop over the groups (lines 75-89). *)
Fixpoint load_groups (channels_strs : list string)
    (channelMap : gmap Channel slice_ref) (heap : Arrays)
    : outcome (gmap Channel slice_ref * Arrays) :=
  match channels_strs with
  | [] => Ret (channelMap, heap)
  | channels_str :: rest =>
      let channel_strs := Split channels_str ":" in
      let '(channels, heap1) := make (length channel_strs) heap in
      '(channelMap', heap2) ← load_group channel_strs 0 channels channelMap heap1;
      load_groups rest channelMap' heap2
  end.

(** Third loop (lines 93-96). *)
Fixpoint load_tokens (tokens : list string) (outboundTokens : gmap Channel string)
    : outcome (gmap Channel string) :=
  match tokens with
  | [] => Ret outboundTokens
  | token :: rest =>
      let parts := Split token ":" in
      p0 ← index parts 0;
      channel ← MakeChannel p0;
      p1 ← index parts 1;
      load_tokens rest (<[channel := p1]> outboundTokens)
  end.

Definition GetConfiguration (env : Environ) : outcome (Configuration * Arrays) :=
  let team_strs := Split (SLACKLINE_TEAMS env) "," in
  teams ← load_teams team_strs ∅;
  let channels_strs := Split (SLACKLINE_CHANNEL_MAP env) "," in
  '(channelMap, heap) ← load_groups channels_strs ∅ [];
  let tokens := Split (SLACKLINE_OUTBOUND_TOKENS env) "," in
  outboundTokens ← load_tokens tokens ∅;
  mret (mkConfiguration teams channelMap outboundTokens, heap).

(** ** Messages, external services and the run-time state *)

(** [slackMessage]; the embedded [Channel] is the field [msgChannel]. *)
Record slackMessage : Type := mkMessage {
  msgChannel : Channel;
  Username : string;
  Text : string;
  Icon : string;
  LinkNames : bool
}.

(** The part of [slack.User] the program reads. *)
Record UserProfile : Type := mkProfile { ImageOriginal : string }.
Record User : Type := mkUser { Name : string; Profile : UserProfile }.

(** A Go [error] value, by its message; [None] is [nil]. *)
Abbreviation error := string (only parsing).

(** What [http.Post] gives back: an error, or a response. *)
Inductive HttpResult : Type :=
  | TransportError (err : error)
  | Response (StatusCode : Z) (Status : string) (Body : string).

Inductive LogLine : Type :=
  | LogUnableToMap (s : string) (err : option error)
  | LogIncorrectToken (token : string)
  | LogError (err : error).

(** Everything the handler does to the outside, in the order it happens. *)
Inductive Event : Type :=
  | EvStatus (code : Z)
  | EvLog (l : LogLine)
  | EvGetUserInfo (client : string) (user : string)
  | EvPost (dest : Channel) (url : string) (body : slackMessage).

(** The state a request runs in: the events so far and the one [msg]
    record of the handler, which every [*slackMessage] points to. *)
Record State : Type := mkState {
  events : list Event;
  msg : slackMessage
}.

(** State and panic monad. *)
Definition M (A : Type) : Type := State -> outcome A * State.

#[global] Instance M_ret : MRet M := fun A a σ => (Ret a, σ).
#[global] Instance M_bind : MBind M := fun A B k m σ =>
  match m σ with
  | (Ret a, σ') => k a σ'
  | (Panicked p, σ') => (Panicked p, σ')
  end.

Definition throw {A} (p : panic) : M A := fun σ => (Panicked p, σ).

Definition lift {A} (o : outcome A) : M A := fun σ => (o, σ).

Definition emit (e : Event) : M unit :=
  fun σ => (Ret (), mkState (events σ ++ [e]) (msg σ)).

Definition get_msg : M slackMessage := fun σ => (Ret (msg σ), σ).

Definition set_msg (m : slackMessage) : M unit :=
  fun σ => (Ret (), mkState (events σ) m).

(** [for _, x := range l { body(x) }]. *)
Fixpoint for_range {A} (l : list A) (body : A -> M unit) : M unit :=
  match l with
  | [] => mret ()
  | x :: rest => body x;; for_range rest body
  end.

(** ** The regular expression [<@[^>]+>] *)

(** The bytes before the first [>] of [s], if there is one. *)
Fixpoint until_close (s : string) : option string :=
  match s with
  | EmptyString => None
  | String a s' =>
      if decide (a = ">"%char) then Some EmptyString
      else String a <$> until_close s'
  end.

(** The match of [mentionRegexp] that starts at the first byte of [s]. *)
Definition match_at (s : string) : option string :=
  match s with
  | String a (String b s') =>
      if decide (a = "<"%char /\ b = "@"%char) then
        match until_close s' with
        | Some (String x body) => Some ("<@" +:+ String x body +:+ ">")
        | _ => None
        end
      else None
  | _ => None
  end.

(** The pass of [ReplaceAllStringFunc] over the source: bytes copied and
    matches found, left to right; [skip] counts the bytes still covered by
    the last match. *)
Inductive segment : Type :=
  | Copy (a : ascii)
  | Found (m : string).

Fixpoint scan (s : string) (skip : nat) : list segment :=
  match s with
  | EmptyString => []
  | String a s' =>
      match skip with
      | S k => scan s' k
      | O =>
          match match_at s with
          | Some m => Found m :: scan s' (String.length m - 1)
          | None => Copy a :: scan s' 0
          end
      end
  end.

Fixpoint replace_segments (segs : list segment) (repl : string -> M string)
    : M string :=
  match segs with
  | [] => mret EmptyString
  | Copy a :: rest =>
      out ← replace_segments rest repl;
      mret (String a out)
  | Found m :: rest =>
      r ← repl m;
      out ← replace_segments rest repl;
      mret (r +:+ out)
  end.

Definition ReplaceAllStringFunc (src : string) (repl : string -> M string)
    : M string :=
  replace_segments (scan src 0) repl.

(** ** The request handler and what it calls *)

(** The form of a POST request: [c.PostForm(key)] is the empty string for
    a field that is not there. *)
Definition PostForm (c : gmap string string) (key : string) : string :=
  default "" (c !! key).

Definition postMessageURL : string := "https://hooks.slack.com/services/".

Section Bridge.

(** The global [config] and the arrays its slices point to. *)
Variable config : Configuration.
Variable heap : Arrays.

(** The Slack API and the HTTP transport: their answer may depend on
    everything that happened before. *)
Variable users_info : list Event -> string -> string -> option User * option error.
Variable transport : list Event -> string -> slackMessage -> HttpResult.

Definition GetTeam (c : Channel) : option Team :=
  teams config !! TeamId c.

(** [team.GetUserInfo(user)] through the embedded client of a [*Team]. *)
Definition GetUserInfo (team : option Team) (user : string)
    : M (option User * option error) :=
  match team with
  | None => throw NilDereference
  | Some t => fun σ =>
      (Ret (users_info (events σ) (Client t) user),
       mkState (events σ ++ [EvGetUserInfo (Client t) user]) (msg σ))
  end.

(** [http.Post(url, "application/json", body)] on behalf of [dest]. *)
Definition http_Post (dest : Channel) (url : string) (body : slackMessage)
    : M HttpResult :=
  fun σ =>
    (Ret (transport (events σ) url body),
     mkState (events σ ++ [EvPost dest url body]) (msg σ)).

(** [config.channelMap[c]]: the nil slice for a missing key. *)
Definition peers (c : Channel) : list Channel :=
  match channelMap config !! c with
  | Some r => default [] (heap !! r)
  | None => []
  end.

Definition Forward (c : Channel) (f : Channel -> M unit) : M unit :=
  for_range (peers c) (fun other =>
    if decide (c ≠ other) then f other else mret ()).

Definition VerifyToken (c : Channel) (token : string) : bool :=
  bool_decide (default "" (outboundTokens config !! c) = token).

(** [payload] (lines 115-119): sets [LinkNames] and marshals the record.
    What is returned here is the record that [json.Marshal] is given; the
    bytes that are posted are its encoding, which [sent] below takes as a
    parameter, so that nothing is said of the encoding of a field. *)
Definition payload : M slackMessage :=
  s ← get_msg;
  set_msg (mkMessage (msgChannel s) (Username s) (Text s) (Icon s) true);;
  get_msg.

(** The function given to [ReplaceAllStringFunc] (lines 124-137). *)
Definition rewrite_mention (s : string) : M string :=
  s ← lift (slice s 2 (Z.of_nat (String.length s) - 1));
  if Contains s "|" then
    s ← lift (index (Split s "|") 1);
    mret ("@" +:+ s)
  else
    m ← get_msg;
    '(user, err) ← GetUserInfo (GetTeam (msgChannel m)) s;
    match err with
    | None =>
        emit (EvLog (LogUnableToMap s err));;
        mret ("@" +:+ s)
    | Some _ =>
        match user with
        | Some u => mret ("@" +:+ Name u)
        | None => throw NilDereference
        end
    end.

Definition RewriteMentions : M unit :=
  m ← get_msg;
  text ← ReplaceAllStringFunc (Text m) rewrite_mention;
  m ← get_msg;
  set_msg (mkMessage (msgChannel m) (Username m) text (Icon m) (LinkNames m)).

Definition FetchUserIcon : M (option error) :=
  m ← get_msg;
  '(userInfo, err) ← GetUserInfo (GetTeam (msgChannel m)) (Username m);
  match err with
  | None =>
      match userInfo with
      | Some u =>
          m ← get_msg;
          set_msg (mkMessage (msgChannel m) (Username m) (Text m)
                             (ImageOriginal (Profile u)) (LinkNames m));;
          mret err
      | None => throw NilDereference
      end
  | Some _ => mret err
  end.

(** [WebhookPostMessage] (lines 149-174).  Of the arguments of [http.Post]
    the call [msg.payload()] is evaluated first, the URL is put together
    from the team after it: with a nil team the message has [LinkNames]
    set when the dereference panics. *)
Definition WebhookPostMessage (c : Channel) : M (option error) :=
  match GetTeam c with
  | None => payload;; throw NilDereference
  | Some team =>
      let url := postMessageURL +:+ "/" +:+ Id team +:+ "/" +:+ IncomingToken team in
      body ← payload;
      res ← http_Post c url body;
      match res with
      | TransportError err =>
          emit (EvLog (LogError err));;
          mret (Some err)
      | Response StatusCode Status body =>
          if decide (StatusCode ≠ 200%Z) then
            let err := Status +:+ " - " +:+ body in
            emit (EvLog (LogError err));;
            mret (Some err)
          else mret None
      end
  end.

(** The handler of [POST /bridge] (lines 186-210). *)
Definition bridge (c : gmap string string) : M unit :=
  set_msg (mkMessage (mkChannel (PostForm c "team_id") (PostForm c "channel_id"))
                     (PostForm c "user_name") (PostForm c "text") "" false);;
  emit (EvStatus 200);;
  m ← get_msg;
  if negb (VerifyToken (msgChannel m) (PostForm c "token")) then
    emit (EvLog (LogIncorrectToken (PostForm c "token")))
  else
    m ← get_msg;
    if decide (Username m = "slackbot") then mret ()
    else
      FetchUserIcon;;
      RewriteMentions;;
      m ← get_msg;
      Forward (msgChannel m) (fun c => WebhookPostMessage c;; mret ()).

End Bridge.

(** ** The configured groups, read off the environment *)

(** The channels one group string spells out, and the groups that
    [SLACKLINE_CHANNEL_MAP] spells out: the input of the channel map
    construction, used to state what the construction does with it. *)
Fixpoint parse_channels (channel_strs : list string) : outcome (list Channel) :=
  match channel_strs with
  | [] => Ret []
  | channel_str :: rest =>
      channel ← MakeChannel channel_str;
      channels ← parse_channels rest;
      mret (channel :: channels)
  end.

Fixpoint parse_groups (channels_strs : list string) : outcome (list (list Channel)) :=
  match channels_strs with
  | [] => Ret []
  | channels_str :: rest =>
      g ← parse_channels (Split channels_str ":");
      gs ← parse_groups rest;
      mret (g :: gs)
  end.

Definition configured_groups (env : Environ) : outcome (list (list Channel)) :=
  parse_groups (Split (SLACKLINE_CHANNEL_MAP env) ",").

(** ** Definitions used to state the properties *)

Definition config_of (env : Environ) : Configuration :=
  match GetConfiguration env with
  | Ret (cfg, _) => cfg
  | Panicked _ => mkConfiguration ∅ ∅ ∅
  end.

Definition arrays_of (env : Environ) : Arrays :=
  match GetConfiguration env with
  | Ret (_, heap) => heap
  | Panicked _ => []
  end.

Definition c11 : Channel := mkChannel "T1" "C1".

Definition c22 : Channel := mkChannel "T2" "C2".

Definition c33 : Channel := mkChannel "T3" "C3".

Definition c99 : Channel := mkChannel "T9" "C9".

(** Three teams, one group of three channels, a token for each channel. *)
Definition env1 : Environ :=
  mkEnviron "T1:xoxp-1:B1/k1,T2:xoxp-2:B2/k2,T3:xoxp-3:B3/k3"
            "T1/C1:T2/C2:T3/C3"
            "T1/C1:s1,T2/C2:s2,T3/C3:s3".

(** The same, with [T1/C1] in a second group as well. *)
Definition env_dup : Environ :=
  mkEnviron "T1:xoxp-1:B1/k1,T2:xoxp-2:B2/k2,T3:xoxp-3:B3/k3"
            "T1/C1:T2/C2,T3/C3:T1/C1"
            "T1/C1:s1,T2/C2:s2,T3/C3:s3".

(** A callback that only records the channel it is given. *)
Definition record_delivery (o : Channel) : M unit :=
  emit (EvPost o "" (mkMessage zero_Channel "" "" "" false)).

Definition not_status (e : Event) : Prop :=
  match e with EvStatus _ => False | _ => True end.

(** Log lines and user lookups: neither a status nor a post. *)
Definition internal (e : Event) : Prop :=
  match e with EvLog _ | EvGetUserInfo _ _ => True | _ => False end.

(** The status recorded for the response after [evs], starting from
    [cur]: [c.Status] records the status and writes nothing. *)
Fixpoint response_status (evs : list Event) (cur : Z) : Z :=
  match evs with
  | [] => cur
  | EvStatus code :: rest => response_status rest code
  | _ :: rest => response_status rest cur
  end.

(** The status the poster is answered with, for a run of the handler
    under the router of [gin.Default()] (line 184), whose behaviour is
    taken from the library: when the handler returns, the recorded status
    is written; when it panics, nothing has been written yet and the
    Recovery middleware answers 500. *)
Definition response (r : outcome unit * State) (cur : Z) : Z :=
  match r.1 with
  | Ret _ => response_status (events r.2) cur
  | Panicked _ => 500%Z
  end.

(** The channels posted to, in order. *)
Definition deliveries (evs : list Event) : list Channel :=
  omap (fun e => match e with EvPost dest _ _ => Some dest | _ => None end) evs.

(** [m] only adds events, and all of them satisfy [P]. *)
Definition appends {A} (P : Event -> Prop) (m : M A) : Prop :=
  forall σ, exists evs,
    events (m σ).2 = events σ ++ evs /\ Forall P evs.

(** [m] leaves the message record alone. *)
Definition keeps_msg {A} (m : M A) : Prop :=
  forall σ, msg (m σ).2 = msg σ.

(** The message record the handler builds from the form (lines 187-191). *)
Definition message_of (c : gmap string string) : slackMessage :=
  mkMessage (mkChannel (PostForm c "team_id") (PostForm c "channel_id"))
            (PostForm c "user_name") (PostForm c "text") "" false.

Definition request (team channel user text token : string) : gmap string string :=
  list_to_map [("team_id", team); ("channel_id", channel);
               ("user_name", user); ("text", text); ("token", token)].

Definition no_user : list Event -> string -> string -> option User * option error :=
  fun _ _ _ => (None, Some "user_not_found").

Definition alice_for_all : list Event -> string -> string -> option User * option error :=
  fun _ _ _ => (Some (mkUser "alice" (mkProfile "http://img/alice")), None).

Definition transport_down : list Event -> string -> slackMessage -> HttpResult :=
  fun _ _ _ => TransportError "connection refused".

Definition transport_ok : list Event -> string -> slackMessage -> HttpResult :=
  fun _ _ _ => Response 200 "200 OK" "ok".

Definition start : State := mkState [] (mkMessage zero_Channel "" "" "" false).

(** The record as [payload] leaves it. *)
Definition linked (m : slackMessage) : slackMessage :=
  mkMessage (msgChannel m) (Username m) (Text m) (Icon m) true.

Definition webhook_url (t : Team) : string :=
  postMessageURL +:+ "/" +:+ Id t +:+ "/" +:+ IncomingToken t.

(** The mention token with the given text between ["<@"] and [">"]. *)
Definition mention (body : string) : string := "<@" +:+ body +:+ ">".

(** No match of the regular expression begins within [pre], in the text
    [pre +:+ rest]. *)
Fixpoint no_match_in (pre rest : string) : bool :=
  match pre with
  | EmptyString => true
  | String a p =>
      match match_at (String a p +:+ rest) with
      | Some _ => false
      | None => no_match_in p rest
      end
  end.

Fixpoint copies (s : string) : list segment :=
  match s with
  | EmptyString => []
  | String a s' => Copy a :: copies s'
  end.

(** The message with another text. *)
Definition with_text (m : slackMessage) (text : string) : slackMessage :=
  mkMessage (msgChannel m) (Username m) text (Icon m) (LinkNames m).

Definition stale_user : list Event -> string -> string -> option User * option error :=
  fun _ _ _ => (Some (mkUser "ghost" (mkProfile "")), Some "user_not_found").

(** ** Further definitions used to state properties *)

(** How many times the byte [sep] occurs in [s]. *)
Fixpoint count_sep (s : string) (sep : ascii) : nat :=
  match s with
  | EmptyString => 0
  | String a s' => (if decide (a = sep) then 1 else 0) + count_sep s' sep
  end.

(** The teams that [SLACKLINE_TEAMS] spells out, in order. *)
Fixpoint parse_teams (team_strs : list string) : outcome (list Team) :=
  match team_strs with
  | [] => Ret []
  | team_str :: rest =>
      team ← NewTeam team_str;
      teams ← parse_teams rest;
      mret (team :: teams)
  end.

Definition configured_teams (env : Environ) : outcome (list Team) :=
  parse_teams (Split (SLACKLINE_TEAMS env) ",").

(** One entry of [SLACKLINE_OUTBOUND_TOKENS], read as the third loop of
    [GetConfiguration] reads it (lines 94-95), and all of them in order. *)
Definition parse_token (token : string) : outcome (Channel * string) :=
  let parts := Split token ":" in
  p0 ← index parts 0;
  channel ← MakeChannel p0;
  p1 ← index parts 1;
  mret (channel, p1).

Fixpoint parse_tokens (tokens : list string) : outcome (list (Channel * string)) :=
  match tokens with
  | [] => Ret []
  | token :: rest =>
      entry ← parse_token token;
      entries ← parse_tokens rest;
      mret (entry :: entries)
  end.

Definition configured_tokens (env : Environ) : outcome (list (Channel * string)) :=
  parse_tokens (Split (SLACKLINE_OUTBOUND_TOKENS env) ",").

(** The channel strings of [SLACKLINE_CHANNEL_MAP], group after group. *)
Definition channel_strs (env : Environ) : list string :=
  concat (map (fun channels_str => Split channels_str ":")
              (Split (SLACKLINE_CHANNEL_MAP env) ",")).

(** The posts made, in order: destination, URL and body. *)
Definition posts (evs : list Event) : list (Channel * string * slackMessage) :=
  omap (fun e => match e with
                 | EvPost dest url body => Some (dest, url, body)
                 | _ => None
                 end) evs.

(** The webhook URL of the team of a channel. *)
Definition url_of (cfg : Configuration) (o : Channel) : string :=
  match GetTeam cfg o with
  | Some t => webhook_url t
  | None => ""
  end.

(** The function the handler gives to [Forward] (lines 207-209). *)
Definition deliver (cfg : Configuration)
    (transport : list Event -> string -> slackMessage -> HttpResult)
    (o : Channel) : M unit :=
  WebhookPostMessage cfg transport o;; mret ().

(** A result that is a return or a nil dereference. *)
Definition ret_or_nil {A} (o : outcome A) : Prop :=
  match o with
  | Ret _ => True
  | Panicked p => p = NilDereference
  end.

(** Every match of the regular expression that begins within [pre], in
    the text [pre +:+ rest], ends within [pre]. *)
Fixpoint none_straddles (pre rest : string) : bool :=
  match pre with
  | EmptyString => true
  | String a p =>
      match match_at (String a p +:+ rest) with
      | Some m =>
          (String.length m <=? String.length (String a p)) && none_straddles p rest
      | None => none_straddles p rest
      end
  end.

(** What goes over the wire, in order: for each post the destination, the
    URL and the bytes of the body, which are [json.Marshal] of the record
    (line 117).  The encoding is a parameter: nothing is assumed of what
    it does to the fields of the record. *)
Definition sent (json_Marshal : slackMessage -> string) (evs : list Event)
    : list (Channel * string * string) :=
  (fun p => (p.1.1, p.1.2, json_Marshal p.2)) <$> posts evs.

(** * Properties *)

(** ** Panic monad *)

Lemma outcome_bind_Ret {A B} (k : A -> outcome B) (o : outcome A) (b : B) :
  o ≫= k = Ret b -> exists a, o = Ret a /\ k a = Ret b.
Proof. destruct o as [a|p]; simpl; [eauto | discriminate]. Qed.

Ltac inv_outcome H :=
  let a := fresh "x" in
  let Ha := fresh "E" in
  apply outcome_bind_Ret in H; destruct H as (a & Ha & H).

Lemma index_Ret {A} (l : list A) i x : index l i = Ret x <-> l !! i = Some x.
Proof.
  unfold index. destruct (l !! i); split; intros H; try discriminate; congruence.
Qed.

(** ** Construction of the channel map *)

Lemma parse_channels_length strs cs :
  parse_channels strs = Ret cs -> length cs = length strs.
Proof.
  revert cs. induction strs as [|s strs IH]; intros cs H; simpl in H.
  - by inversion H.
  - inv_outcome H. inv_outcome H. inversion H; subst. simpl. f_equal. eauto.
Qed.

(** One group: on success the strings parse to distinct channels that were
    not mapped before, each is now mapped to the group's array, and the
    array holds them from [key] on. *)
Lemma load_group_Ret strs : forall key r cm (h : Arrays) arr cm' h',
  h !! r = Some arr ->
  key + length strs <= length arr ->
  load_group strs key r cm h = Ret (cm', h') ->
  exists cs,
    parse_channels strs = Ret cs /\
    NoDup cs /\
    (forall c, c ∈ cs -> cm !! c = None) /\
    (forall c, cm' !! c = if decide (c ∈ cs) then Some r else cm !! c) /\
    h' = <[r := take key arr ++ cs ++ drop (key + length cs) arr]> h.
Proof.
  induction strs as [|s strs IH]; intros key r cm h arr cm' h' Hr Hlen H;
    simpl in H.
  - inversion H; subst. exists []. simpl. split_and!; auto.
    + constructor.
    + intros c Hc. by apply elem_of_nil in Hc.
    + rewrite Nat.add_0_r, take_drop. symmetry. by apply list_insert_id.
  - simpl in Hlen. inv_outcome H. rename x into c. inv_outcome H. rename x into h1.
    unfold store in E0. rewrite Hr in E0.
    destruct (decide (key < length arr)) as [Hk|Hk]; [|lia].
    inversion E0; subst h1; clear E0.
    destruct (cm !! c) eqn:Hc; [discriminate|].
    apply (IH (S key) r _ _ (<[key := c]> arr)) in H as (cs & Hp & Hnd & Hfresh & Hcm & Hh).
    2: { apply list_lookup_insert_eq. by apply lookup_lt_Some in Hr. }
    2: { rewrite length_insert. lia. }
    assert (Hnotin : c ∉ cs).
    { intros Hin. apply Hfresh in Hin. by rewrite lookup_insert_eq in Hin. }
    exists (c :: cs). simpl. rewrite E, Hp. simpl. split_and!; auto.
    + by constructor.
    + intros c' Hc'. apply elem_of_cons in Hc' as [->|Hc']; [done|].
      apply Hfresh in Hc'. apply lookup_insert_None in Hc'. tauto.
    + intros c'. rewrite Hcm. destruct (decide (c' = c)) as [->|Hne].
      * rewrite decide_False by done. rewrite lookup_insert_eq.
        rewrite decide_True; [done | apply elem_of_cons; auto].
      * rewrite lookup_insert_ne by done.
        destruct (decide (c' ∈ cs)) as [Hi|Hi].
        -- rewrite decide_True; [done | apply elem_of_cons; auto].
        -- rewrite decide_False; [done|]. rewrite elem_of_cons. tauto.
    + rewrite Hh, list_insert_insert_eq. f_equal.
      destruct (lookup_lt_is_Some_2 arr key Hk) as [x Hx].
      rewrite (take_S_r (<[key:=c]> arr) key c).
      2: { by apply list_lookup_insert_eq. }
      rewrite take_insert_ge by lia.
      rewrite drop_insert_lt by lia.
      rewrite <- app_assoc. simpl.
      by replace (key + S (length cs)) with (S key + length cs) by lia.
Qed.

(** All groups: the arrays appended to the store are the parsed groups,
    no channel occurs twice, and each channel is mapped to the array of its
    group. *)
Lemma load_groups_Ret gstrs : forall cm (h : Arrays) cm' h',
  load_groups gstrs cm h = Ret (cm', h') ->
  exists gs,
    parse_groups gstrs = Ret gs /\
    NoDup (concat gs) /\
    (forall c, c ∈ concat gs -> cm !! c = None) /\
    h' = h ++ gs /\
    (forall i g c, gs !! i = Some g -> c ∈ g -> cm' !! c = Some (length h + i)) /\
    (forall c, c ∉ concat gs -> cm' !! c = cm !! c).
Proof.
  induction gstrs as [|gstr gstrs IH]; intros cm h cm' h' H; simpl in H.
  - inversion H; subst. exists []. simpl. split_and!; auto.
    + constructor.
    + intros c Hc. by apply elem_of_nil in Hc.
    + by rewrite app_nil_r.
    + intros i g c Hg. by rewrite lookup_nil in Hg.
  - inv_outcome H. destruct x as [cm1 h1].
    apply (load_group_Ret _ 0 (length h) cm _
             (replicate (length (Split gstr ":")) zero_Channel)) in E
      as (cs & Hp & Hnd & Hfresh & Hcm & Hh).
    2: { by rewrite lookup_app_r, Nat.sub_diag by lia. }
    2: { by rewrite length_replicate. }
    assert (Hh1 : h1 = h ++ [cs]).
    { rewrite Hh. simpl. rewrite drop_ge.
      2: { rewrite length_replicate. apply parse_channels_length in Hp. lia. }
      rewrite app_nil_r.
      replace (length h) with (length h + 0) by lia.
      by rewrite insert_app_r. }
    clear Hh. subst h1.
    apply IH in H as (gs & Hpg & Hndg & Hfreshg & Hh' & Hin & Hout).
    exists (cs :: gs). simpl. rewrite Hp, Hpg. simpl.
    assert (Hdisj : forall c, c ∈ cs -> c ∉ concat gs).
    { intros c Hc Hc'. apply Hfreshg in Hc'. rewrite Hcm in Hc'.
      by rewrite decide_True in Hc'. }
    split_and!; auto.
    + apply NoDup_app. split_and!; auto.
    + intros c Hc. apply elem_of_app in Hc as [Hc|Hc]; [by apply Hfresh|].
      apply Hfreshg in Hc. rewrite Hcm in Hc.
      by destruct (decide (c ∈ cs)).
    + by rewrite Hh', <- app_assoc.
    + intros i g c Hg Hc. destruct i as [|i]; simpl in Hg.
      * inversion Hg; subst g. rewrite Hout by auto. rewrite Hcm.
        rewrite decide_True by done. f_equal. lia.
      * rewrite (Hin i g c Hg Hc). rewrite length_app. simpl. f_equal. lia.
    + intros c Hc. rewrite not_elem_of_app in Hc. destruct Hc as [Hc1 Hc2].
      rewrite Hout by done. rewrite Hcm. by rewrite decide_False.
Qed.

(** What a successful [GetConfiguration] has built. *)
Lemma GetConfiguration_Ret env cfg (heap : Arrays) :
  GetConfiguration env = Ret (cfg, heap) ->
  configured_groups env = Ret heap /\
  NoDup (concat heap) /\
  (forall i g c, heap !! i = Some g -> c ∈ g -> channelMap cfg !! c = Some i) /\
  (forall c, c ∉ concat heap -> channelMap cfg !! c = None).
Proof.
  unfold GetConfiguration, configured_groups. intros H.
  inv_outcome H. inv_outcome H. destruct x0 as [cm h].
  inv_outcome H. inversion H; subst; clear H. simpl.
  apply load_groups_Ret in E0 as (gs & Hpg & Hnd & _ & Hh & Hin & Hout).
  simpl in Hh. subst. split_and!; auto.
Qed.

Lemma peers_of_member env cfg (heap : Arrays) g c :
  GetConfiguration env = Ret (cfg, heap) ->
  g ∈ heap -> c ∈ g -> peers cfg heap c = g.
Proof.
  intros H Hg Hc. apply GetConfiguration_Ret in H as (_ & _ & Hin & _).
  apply list_elem_of_lookup in Hg as [i Hi].
  unfold peers. by rewrite (Hin i g c Hi Hc), Hi.
Qed.

Lemma peers_of_stranger env cfg (heap : Arrays) c :
  GetConfiguration env = Ret (cfg, heap) ->
  c ∉ concat heap -> peers cfg heap c = [].
Proof.
  intros H Hc. apply GetConfiguration_Ret in H as (_ & _ & _ & Hout).
  unfold peers. by rewrite (Hout c Hc).
Qed.

Lemma elem_of_concat {A} (ls : list (list A)) (x : A) :
  x ∈ concat ls <-> exists l, l ∈ ls /\ x ∈ l.
Proof.
  induction ls as [|l0 ls IH]; simpl.
  - split; [intros H; by apply elem_of_nil in H|].
    intros (l & H & _). by apply elem_of_nil in H.
  - rewrite elem_of_app, IH. split.
    + intros [H|(l & Hl & Hx)]; [exists l0 | exists l];
        rewrite elem_of_cons; auto.
    + intros (l & Hl & Hx). apply elem_of_cons in Hl as [->|Hl]; eauto.
Qed.

(** In a list of groups without a repeated channel, a channel names its
    group. *)
Lemma NoDup_concat_group (gs : list (list Channel)) g g' c :
  NoDup (concat gs) -> g ∈ gs -> g' ∈ gs -> c ∈ g -> c ∈ g' -> g' = g.
Proof.
  induction gs as [|g0 gs IH]; intros Hnd Hg Hg' Hc Hc'.
  - by apply elem_of_nil in Hg.
  - simpl in Hnd. apply NoDup_app in Hnd as (_ & Hdisj & Hnd).
    assert (Hcat : forall x, x ∈ gs -> c ∈ x -> c ∈ concat gs).
    { intros x Hx Hcx. apply elem_of_concat. eauto. }
    apply elem_of_cons in Hg as [->|Hg]; apply elem_of_cons in Hg' as [->|Hg'];
      auto.
    + exfalso. eapply Hdisj; eauto.
    + exfalso. eapply Hdisj; eauto.
Qed.

(** ** Forwarding *)

Lemma for_range_filter {A} (P : A -> Prop) `{!forall x, Decision (P x)}
    (l : list A) (f : A -> M unit) :
  for_range l (fun x => if decide (P x) then f x else mret ())
  = for_range (filter P l) f.
Proof.
  induction l as [|x l IH]; simpl; [done|].
  rewrite IH. unfold filter at 2. simpl. fold (filter P l).
  destruct (decide (P x)); simpl; [done|].
  reflexivity.
Qed.

Lemma Forward_filter cfg (heap : Arrays) c f :
  Forward cfg heap c f = for_range (filter (fun o => c ≠ o) (peers cfg heap c)) f.
Proof. unfold Forward. apply (for_range_filter (fun o => c ≠ o)). Qed.

(** ** Concrete configurations *)

Lemma GetConfiguration_env1 :
  GetConfiguration env1 = Ret (config_of env1, arrays_of env1).
Proof. vm_compute. reflexivity. Qed.

(** ** Claims on the configuration and on forwarding *)

(** C4. Construction of the channel map is fatal on a repeated channel: if
    some channel occurs twice in the configured groups taken together (in
    two groups or twice in one), [GetConfiguration] panics; and when it
    succeeds, no channel is repeated, the channel map gives every member of
    a group that whole group as its peers, and no other group contains
    that channel. *)
Theorem GetConfiguration_repeated_channel_is_fatal (env : Environ) :
  (forall gs, configured_groups env = Ret gs ->
              ~ NoDup (concat gs) ->
              is_panic (GetConfiguration env)) /\
  (forall cfg (heap : Arrays), GetConfiguration env = Ret (cfg, heap) ->
     exists gs, configured_groups env = Ret gs /\
       NoDup (concat gs) /\
       forall g c, g ∈ gs -> c ∈ g ->
         peers cfg heap c = g /\
         forall g', g' ∈ gs -> c ∈ g' -> g' = g).
Proof.
  split.
  - intros gs Hgs Hdup.
    destruct (GetConfiguration env) as [[cfg heap]|p] eqn:H; [|exact I].
    apply GetConfiguration_Ret in H as (Hh & Hnd & _).
    rewrite Hgs in Hh. inversion Hh; subst. contradiction.
  - intros cfg heap H. exists heap.
    pose proof (GetConfiguration_Ret _ _ _ H) as (Hh & Hnd & _).
    split_and!; auto. intros g c Hg Hc. split.
    + eapply peers_of_member; eauto.
    + intros g' Hg' Hc'. eapply NoDup_concat_group; eauto.
Qed.

Lemma GetConfiguration_repeated_channel_is_fatal_witness :
  (configured_groups env_dup = Ret [[c11; c22]; [c33; c11]] /\
   ~ NoDup (concat [[c11; c22]; [c33; c11]]) /\
   is_panic (GetConfiguration env_dup)) /\
  (GetConfiguration env1 = Ret (config_of env1, arrays_of env1) /\
   exists gs, configured_groups env1 = Ret gs /\
     NoDup (concat gs) /\
     forall g c, g ∈ gs -> c ∈ g ->
       peers (config_of env1) (arrays_of env1) c = g /\
       forall g', g' ∈ gs -> c ∈ g' -> g' = g).
Proof.
  assert (Hdup : ~ NoDup (concat [[c11; c22]; [c33; c11]])).
  { apply (bool_decide_unpack _). vm_compute. exact I. }
  split.
  - split; [vm_compute; reflexivity|]. split; [exact Hdup|].
    apply (proj1 (GetConfiguration_repeated_channel_is_fatal env_dup)
                 [[c11; c22]; [c33; c11]]).
    + vm_compute. reflexivity.
    + exact Hdup.
  - split; [vm_compute; reflexivity|].
    apply (proj2 (GetConfiguration_repeated_channel_is_fatal env1)).
    vm_compute. reflexivity.
Defined.

(** ** Token verification *)

(** A channel without an entry is compared with the zero value of the
    map, the empty string. *)
Lemma VerifyToken_absent cfg c token :
  outboundTokens cfg !! c = None ->
  VerifyToken cfg c token = bool_decide (token = "").
Proof.
  intros H. unfold VerifyToken. rewrite H. simpl.
  apply bool_decide_ext. split; congruence.
Qed.

Lemma VerifyToken_absent_nonempty cfg c a token :
  outboundTokens cfg !! c = None ->
  VerifyToken cfg c (String a token) = false.
Proof. intros H. rewrite VerifyToken_absent by done. by apply bool_decide_eq_false. Qed.

(** C2. A channel without an entry in the token table is to verify no
    token, the empty string included.  The code accepts the empty string
    for such a channel: [T9/C9] is not in the table built from [env1], and
    [VerifyToken] answers [true] for it and the empty token. *)
Theorem VerifyToken_absent_channel_accepts_empty_token :
  GetConfiguration env1 = Ret (config_of env1, arrays_of env1) /\
  outboundTokens (config_of env1) !! c99 = None /\
  VerifyToken (config_of env1) c99 "" = true.
Proof. split_and!; vm_compute; reflexivity. Qed.

(** ** Events of a computation *)

Create HintDb appends.
Create HintDb keeps.

Section Appends.

Variable P : Event -> Prop.

Lemma appends_nothing {A} (m : M A) :
  (forall σ, events (m σ).2 = events σ) -> appends P m.
Proof. intros H σ. exists []. rewrite H, app_nil_r. auto. Qed.

Lemma appends_ret {A} (a : A) : appends P (mret a).
Proof. by apply appends_nothing. Qed.

Lemma appends_throw {A} p : appends P (@throw A p).
Proof. by apply appends_nothing. Qed.

Lemma appends_lift {A} (o : outcome A) : appends P (lift o).
Proof. by apply appends_nothing. Qed.

Lemma appends_get_msg : appends P get_msg.
Proof. by apply appends_nothing. Qed.

Lemma appends_set_msg m : appends P (set_msg m).
Proof. by apply appends_nothing. Qed.

Lemma appends_emit e : P e -> appends P (emit e).
Proof. intros H σ. exists [e]. simpl. auto. Qed.

Lemma appends_bind {A B} (m : M A) (k : A -> M B) :
  appends P m -> (forall a, appends P (k a)) -> appends P (m ≫= k).
Proof.
  intros Hm Hk σ. unfold mbind, M_bind.
  destruct (Hm σ) as (evs & E & F).
  destruct (m σ) as [[a|p] σ1]; simpl in *.
  - destruct (Hk a σ1) as (evs' & E' & F').
    exists (evs ++ evs'). rewrite E', E, app_assoc. split; [done|].
    by apply Forall_app.
  - exists evs. auto.
Qed.

Hint Resolve appends_ret appends_throw appends_lift appends_get_msg
  appends_set_msg appends_emit appends_bind : appends.

Lemma appends_for_range {A} (l : list A) (body : A -> M unit) :
  (forall x, appends P (body x)) -> appends P (for_range l body).
Proof. intros H. induction l; simpl; auto with appends. Qed.

Lemma appends_replace_segments segs repl :
  (forall s, appends P (repl s)) -> appends P (replace_segments segs repl).
Proof.
  intros H. induction segs as [|[a|m] segs IH]; simpl; auto 6 with appends.
Qed.

Variable config : Configuration.
Variable heap : Arrays.
Variable users_info : list Event -> string -> string -> option User * option error.
Variable transport : list Event -> string -> slackMessage -> HttpResult.

Hypothesis P_internal : forall e, internal e -> P e.

Lemma appends_log l : appends P (emit (EvLog l)).
Proof. apply appends_emit, P_internal. exact I. Qed.

Lemma appends_GetUserInfo team user : appends P (GetUserInfo users_info team user).
Proof.
  destruct team as [t|]; simpl; [|apply appends_throw].
  intros σ. eexists [_]. simpl. split; [done|].
  repeat constructor. apply P_internal. exact I.
Qed.

Hint Resolve appends_log appends_GetUserInfo : appends.

Lemma appends_rewrite_mention s : appends P (rewrite_mention config users_info s).
Proof.
  unfold rewrite_mention. apply appends_bind; [auto with appends|].
  intros s'. destruct (Contains s' "|"); [auto 6 with appends|].
  apply appends_bind; [auto with appends|]. intros m.
  apply appends_bind; [auto with appends|]. intros [user [e|]].
  - destruct user; auto with appends.
  - auto with appends.
Qed.

Lemma appends_RewriteMentions : appends P (RewriteMentions config users_info).
Proof.
  unfold RewriteMentions, ReplaceAllStringFunc.
  apply appends_bind; [auto with appends|]. intros m.
  apply appends_bind.
  - apply appends_replace_segments, appends_rewrite_mention.
  - auto with appends.
Qed.

Lemma appends_FetchUserIcon : appends P (FetchUserIcon config users_info).
Proof.
  unfold FetchUserIcon.
  apply appends_bind; [auto with appends|]. intros m.
  apply appends_bind; [auto with appends|]. intros [user [e|]].
  - auto with appends.
  - destruct user; auto 6 with appends.
Qed.

Hypothesis P_post : forall dest url body, P (EvPost dest url body).

Lemma appends_http_Post dest url body : appends P (http_Post transport dest url body).
Proof. intros σ. eexists [_]. simpl. split; [done|]. by repeat constructor. Qed.

Hint Resolve appends_http_Post : appends.

Lemma appends_WebhookPostMessage c : appends P (WebhookPostMessage config transport c).
Proof.
  unfold WebhookPostMessage, payload.
  destruct (GetTeam config c); [|auto with appends].
  apply appends_bind; [auto 6 with appends|]. intros body.
  apply appends_bind; [auto with appends|]. intros [err|code status b].
  - auto with appends.
  - destruct (decide (code ≠ 200%Z)); auto with appends.
Qed.

Lemma appends_Forward c f :
  (forall o, appends P (f o)) -> appends P (Forward config heap c f).
Proof.
  intros H. apply appends_for_range. intros o.
  destruct (decide (c ≠ o)); auto with appends.
Qed.

End Appends.

#[local] Hint Resolve appends_ret appends_throw appends_lift appends_get_msg
  appends_set_msg appends_emit appends_bind appends_log : appends.
#[local] Hint Extern 1 (not_status _) => exact I : appends.

Lemma internal_not_status e : internal e -> not_status e.
Proof. by destruct e. Qed.

Lemma response_status_app evs evs' cur :
  response_status (evs ++ evs') cur = response_status evs' (response_status evs cur).
Proof.
  revert cur. induction evs as [|e evs IH]; intros cur; simpl; [done|].
  destruct e; apply IH.
Qed.

Lemma response_status_quiet evs cur :
  Forall not_status evs -> response_status evs cur = cur.
Proof.
  induction 1 as [|e evs He _ IH]; simpl; [done|].
  destruct e; simpl in He; [contradiction|..]; exact IH.
Qed.

Lemma deliveries_app evs evs' :
  deliveries (evs ++ evs') = deliveries evs ++ deliveries evs'.
Proof. apply omap_app. Qed.

Lemma deliveries_internal evs : Forall internal evs -> deliveries evs = [].
Proof.
  induction 1 as [|e evs He _ IH]; [done|].
  destruct e; simpl in He; try contradiction; exact IH.
Qed.

(** ** The handler's response *)

(** Status 200 is the first event of every run of the handler, and the
    only status event. *)
Lemma bridge_status_events
    cfg (heap : Arrays) users_info transport (c : gmap string string) (σ : State) :
  exists evs,
    events (bridge cfg heap users_info transport c σ).2
      = events σ ++ EvStatus 200 :: evs /\
    Forall not_status evs /\
    forall cur,
      response_status (events (bridge cfg heap users_info transport c σ).2)
                      (response_status (events σ) cur) = 200%Z.
Proof.
  set (σ1 := mkState (events σ ++ [EvStatus 200])
               (mkMessage (mkChannel (PostForm c "team_id") (PostForm c "channel_id"))
                          (PostForm c "user_name") (PostForm c "text") "" false)).
  assert (Hrest : exists (rest : M unit),
            bridge cfg heap users_info transport c σ = rest σ1 /\
            appends not_status rest).
  { eexists (m ← get_msg;
             if negb (VerifyToken cfg (msgChannel m) (PostForm c "token")) then
               emit (EvLog (LogIncorrectToken (PostForm c "token")))
             else
               m ← get_msg;
               if decide (Username m = "slackbot") then mret ()
               else
                 FetchUserIcon cfg users_info;;
                 RewriteMentions cfg users_info;;
                 m ← get_msg;
                 Forward cfg heap (msgChannel m)
                   (fun c => WebhookPostMessage cfg transport c;; mret ())).
    split; [reflexivity|].
    apply appends_bind; [auto with appends|]. intros m.
    destruct (negb _); [auto with appends|].
    apply appends_bind; [auto with appends|]. intros m'.
    destruct (decide _); [auto with appends|].
    apply appends_bind;
      [apply appends_FetchUserIcon, internal_not_status|]. intros _.
    apply appends_bind;
      [apply appends_RewriteMentions, internal_not_status|]. intros _.
    apply appends_bind; [auto with appends|]. intros m''.
    apply appends_Forward. intros o.
    apply appends_bind; [|auto with appends].
    apply appends_WebhookPostMessage; [apply internal_not_status | done]. }
  destruct Hrest as (rest & -> & Hq).
  destruct (Hq σ1) as (evs & E & F).
  exists evs. rewrite E. simpl. rewrite <- app_assoc. simpl.
  split_and!; auto.
  intros cur. rewrite response_status_app. simpl.
  by apply response_status_quiet.
Qed.

(** A request that fails verification: the handler logs the token and
    returns, having set status 200 and nothing else. *)
Lemma bridge_verification_failure
    cfg (heap : Arrays) users_info transport (c : gmap string string) (σ : State) :
  VerifyToken cfg (msgChannel (message_of c)) (PostForm c "token") = false ->
  bridge cfg heap users_info transport c σ
  = (Ret (), mkState (events σ ++ [EvStatus 200;
                                   EvLog (LogIncorrectToken (PostForm c "token"))])
                     (message_of c)).
Proof.
  intros Hv. unfold bridge, message_of in *.
  unfold mbind, M_bind, set_msg, emit, get_msg. simpl in *.
  rewrite Hv. simpl. by rewrite <- app_assoc.
Qed.

(** C6. The handler is to answer with a success status whatever becomes
    of verification, rewriting and forwarding.  It sets status 200 first
    and no other status, so the answer is 200 in every run in which it
    returns; in a run in which it panics the answer is 500.  A verified
    request with the text [hi <@U123>!], the lookup of [U123] failing
    with no user, is such a run: the rewriting dereferences the nil user
    (the branch taken by the inverted test, see C1), the handler panics
    before any post, and the answer is 500. *)
Theorem bridge_panic_is_answered_500 :
  (forall cfg (heap : Arrays) users_info transport (c : gmap string string)
          (σ : State) (cur : Z),
     response (bridge cfg heap users_info transport c σ) cur
     = match (bridge cfg heap users_info transport c σ).1 with
       | Ret _ => 200%Z
       | Panicked _ => 500%Z
       end) /\
  bridge (config_of env1) (arrays_of env1) no_user transport_ok
         (request "T1" "C1" "bob" "hi <@U123>!" "s1") start
  = (Panicked NilDereference,
     mkState [EvStatus 200; EvGetUserInfo "xoxp-1" "bob";
              EvGetUserInfo "xoxp-1" "U123"]
             (mkMessage c11 "bob" "hi <@U123>!" "" false)) /\
  response (bridge (config_of env1) (arrays_of env1) no_user transport_ok
                   (request "T1" "C1" "bob" "hi <@U123>!" "s1") start) 200
  = 500%Z.
Proof.
  split_and!.
  - intros cfg heap users_info transport c σ cur. unfold response.
    destruct (bridge_status_events cfg heap users_info transport c σ)
      as (evs & E & F & _).
    destruct (bridge cfg heap users_info transport c σ) as [[[]|p] σ'];
      [|reflexivity].
    cbn [fst snd] in *. rewrite E, response_status_app. simpl.
    by apply response_status_quiet.
  - vm_compute. reflexivity.
  - vm_compute. reflexivity.
Qed.

(** C7. A request that passes token verification and whose [user_name] is
    [slackbot] makes the handler set status 200 and return: that status
    is the only event, so there is no user lookup (neither for the avatar
    nor for a mention) and no post, and the message is left as it was
    built, text and avatar included. *)
Theorem bridge_slackbot_is_dropped
    cfg (heap : Arrays) users_info transport (c : gmap string string) (σ : State) :
  VerifyToken cfg (msgChannel (message_of c)) (PostForm c "token") = true ->
  PostForm c "user_name" = "slackbot" ->
  bridge cfg heap users_info transport c σ
  = (Ret (), mkState (events σ ++ [EvStatus 200]) (message_of c)).
Proof.
  intros Hv Hu. unfold bridge, message_of in *.
  unfold mbind, M_bind, set_msg, emit, get_msg. simpl in *.
  rewrite Hv. simpl. rewrite Hu. simpl. reflexivity.
Qed.

Lemma bridge_slackbot_is_dropped_witness :
  (VerifyToken (config_of env1)
     (msgChannel (message_of (request "T1" "C1" "slackbot" "hi <@U1>" "s1")))
     (PostForm (request "T1" "C1" "slackbot" "hi <@U1>" "s1") "token") = true /\
   PostForm (request "T1" "C1" "slackbot" "hi <@U1>" "s1") "user_name" = "slackbot") /\
  bridge (config_of env1) (arrays_of env1) alice_for_all transport_ok
         (request "T1" "C1" "slackbot" "hi <@U1>" "s1") start
  = (Ret (), mkState [EvStatus 200]
               (mkMessage c11 "slackbot" "hi <@U1>" "" false)).
Proof.
  assert (H1 : VerifyToken (config_of env1)
     (msgChannel (message_of (request "T1" "C1" "slackbot" "hi <@U1>" "s1")))
     (PostForm (request "T1" "C1" "slackbot" "hi <@U1>" "s1") "token") = true)
    by (vm_compute; reflexivity).
  assert (H2 : PostForm (request "T1" "C1" "slackbot" "hi <@U1>" "s1") "user_name"
               = "slackbot") by (vm_compute; reflexivity).
  split; [by split|].
  exact (bridge_slackbot_is_dropped (config_of env1) (arrays_of env1)
           alice_for_all transport_ok _ start H1 H2).
Defined.

(** ** The message record during a request *)

Lemma keeps_ret {A} (a : A) : keeps_msg (mret a).
Proof. by intros σ. Qed.

Lemma keeps_throw {A} p : keeps_msg (@throw A p).
Proof. by intros σ. Qed.

Lemma keeps_lift {A} (o : outcome A) : keeps_msg (lift o).
Proof. by intros σ. Qed.

Lemma keeps_get_msg : keeps_msg get_msg.
Proof. by intros σ. Qed.

Lemma keeps_emit e : keeps_msg (emit e).
Proof. by intros σ. Qed.

Lemma keeps_bind {A B} (m : M A) (k : A -> M B) :
  keeps_msg m -> (forall a, keeps_msg (k a)) -> keeps_msg (m ≫= k).
Proof.
  intros Hm Hk σ. unfold mbind, M_bind. specialize (Hm σ).
  destruct (m σ) as [[a|p] σ1]; simpl in *; [|done].
  by rewrite Hk.
Qed.

Lemma keeps_GetUserInfo users_info team user :
  keeps_msg (GetUserInfo users_info team user).
Proof. destruct team; by intros σ. Qed.

#[local] Hint Resolve keeps_ret keeps_throw keeps_lift keeps_get_msg keeps_emit
  keeps_bind keeps_GetUserInfo : keeps.

Lemma keeps_replace_segments segs repl :
  (forall s, keeps_msg (repl s)) -> keeps_msg (replace_segments segs repl).
Proof.
  intros H. induction segs as [|[a|m] segs IH]; simpl; auto 6 with keeps.
Qed.

Lemma keeps_rewrite_mention cfg users_info s :
  keeps_msg (rewrite_mention cfg users_info s).
Proof.
  unfold rewrite_mention. apply keeps_bind; [auto with keeps|].
  intros s'. destruct (Contains s' "|"); [auto 6 with keeps|].
  apply keeps_bind; [auto with keeps|]. intros m.
  apply keeps_bind; [auto with keeps|]. intros [user [e|]].
  - destruct user; auto with keeps.
  - auto with keeps.
Qed.

(** [RewriteMentions] changes at most the text. *)
Lemma RewriteMentions_fields cfg users_info σ :
  let σ' := (RewriteMentions cfg users_info σ).2 in
  msgChannel (msg σ') = msgChannel (msg σ) /\
  Username (msg σ') = Username (msg σ) /\
  Icon (msg σ') = Icon (msg σ).
Proof.
  unfold RewriteMentions, ReplaceAllStringFunc, mbind, M_bind, get_msg, set_msg.
  pose proof (keeps_replace_segments (scan (Text (msg σ)) 0) _
                (keeps_rewrite_mention cfg users_info) σ) as H.
  destruct (replace_segments _ _ σ) as [[text|p] σ1]; simpl in *;
    by rewrite H.
Qed.

(** ** Delivery *)

(** With the destination team registered, [WebhookPostMessage] returns,
    whatever the transport answers: it has posted once, and logged the
    error if there was one. *)
Lemma WebhookPostMessage_run cfg transport o t σ :
  GetTeam cfg o = Some t ->
  exists r logs,
    WebhookPostMessage cfg transport o σ
    = (Ret r, mkState (events σ ++ EvPost o (webhook_url t) (linked (msg σ)) :: logs)
                      (linked (msg σ))) /\
    Forall internal logs.
Proof.
  intros Ht. unfold WebhookPostMessage. rewrite Ht.
  unfold payload, http_Post, mbind, M_bind, get_msg, set_msg, emit. simpl.
  fold (webhook_url t). fold (linked (msg σ)).
  destruct (transport _ _ _) as [err|code status b]; simpl.
  - exists (Some err), [EvLog (LogError err)]. rewrite <- app_assoc. simpl.
    split; [done|]. by repeat constructor.
  - destruct (decide (code ≠ 200%Z)); simpl.
    + eexists _, [_]. rewrite <- app_assoc. simpl.
      split; [done|]. by repeat constructor.
    + exists None, []. split; [done|]. constructor.
Qed.

Lemma for_range_deliver cfg transport (l : list Channel) : forall σ,
  (forall o, o ∈ l -> is_Some (GetTeam cfg o)) ->
  exists σ',
    for_range l (fun o => WebhookPostMessage cfg transport o;; mret ()) σ
    = (Ret (), σ') /\
    deliveries (events σ') = deliveries (events σ) ++ l /\
    Icon (msg σ') = Icon (msg σ).
Proof.
  induction l as [|o l IH]; intros σ Hreg; simpl.
  - exists σ. by rewrite app_nil_r.
  - destruct (Hreg o) as [t Ht]; [apply list_elem_of_here|].
    destruct (WebhookPostMessage_run cfg transport o t σ Ht) as (r & logs & E & F).
    unfold mbind, M_bind at 1. unfold mbind, M_bind at 1. rewrite E. simpl.
    edestruct IH as (σ' & E' & D & I).
    { intros o' Ho'. apply Hreg. by apply list_elem_of_further. }
    exists σ'. rewrite E'. split; [done|]. rewrite D, I. simpl.
    rewrite deliveries_app. simpl. rewrite (deliveries_internal logs F).
    by rewrite <- app_assoc.
Qed.

(** C5. Whatever the transport answers for any of the peers (an error, a
    status other than 200, or success), forwarding to peers whose teams
    are registered posts to every peer other than the origin, in order,
    and returns without a panic: a failed delivery neither stops the loop
    nor reaches the caller. *)
Theorem Forward_survives_delivery_failures
    cfg (heap : Arrays) transport (c : Channel) (σ : State) :
  (forall o, o ∈ peers cfg heap c -> o ≠ c -> is_Some (GetTeam cfg o)) ->
  exists σ',
    Forward cfg heap c (fun o => WebhookPostMessage cfg transport o;; mret ()) σ
    = (Ret (), σ') /\
    deliveries (events σ')
    = deliveries (events σ) ++ filter (fun o => c ≠ o) (peers cfg heap c).
Proof.
  intros Hreg. rewrite Forward_filter.
  destruct (for_range_deliver cfg transport
              (filter (fun o => c ≠ o) (peers cfg heap c)) σ) as (σ' & E & D & _).
  { intros o Ho. apply list_elem_of_filter in Ho as [Hne Ho]. apply Hreg; auto. }
  eauto.
Qed.

Lemma Forward_survives_delivery_failures_witness :
  (forall o, o ∈ peers (config_of env1) (arrays_of env1) c11 -> o ≠ c11 ->
             is_Some (GetTeam (config_of env1) o)) /\
  Forward (config_of env1) (arrays_of env1) c11
    (fun o => WebhookPostMessage (config_of env1) transport_down o;; mret ()) start
  = (Ret (),
     mkState [EvPost c22 "https://hooks.slack.com/services//T2/B2/k2"
                (mkMessage zero_Channel "" "" "" true);
              EvLog (LogError "connection refused");
              EvPost c33 "https://hooks.slack.com/services//T3/B3/k3"
                (mkMessage zero_Channel "" "" "" true);
              EvLog (LogError "connection refused")]
             (mkMessage zero_Channel "" "" "" true)).
Proof.
  assert (Hreg : forall o, o ∈ peers (config_of env1) (arrays_of env1) c11 ->
                   o ≠ c11 -> is_Some (GetTeam (config_of env1) o)).
  { intros o Ho _. change (o ∈ [c11; c22; c33]) in Ho.
    repeat (apply elem_of_cons in Ho as [->|Ho]; [by eexists|]).
    by apply elem_of_nil in Ho. }
  split; [exact Hreg|].
  destruct (Forward_survives_delivery_failures (config_of env1) (arrays_of env1)
              transport_down c11 start Hreg) as (σ' & E & _).
  rewrite E. vm_compute in E. inversion E. reflexivity.
Defined.

(** A delivery function that only records its call. *)
Lemma for_range_record (record : Channel -> Event) (l : list Channel) : forall σ,
  for_range l (fun o => emit (record o)) σ
  = (Ret (), mkState (events σ ++ map record l) (msg σ)).
Proof.
  induction l as [|o l IH]; intros σ; simpl.
  - rewrite app_nil_r. by destruct σ.
  - unfold mbind, M_bind, emit at 1. rewrite IH. simpl.
    by rewrite <- app_assoc.
Qed.

(** C3. For a configuration that [GetConfiguration] has built and an origin
    channel [c] in a configured group [g], [Forward] calls its delivery
    function once for each element of [g] other than [c], in the order of
    the group, and for nothing else.  With a delivery function that
    records its call, the calls recorded are exactly the other members,
    one each; with the delivery function of the handler and the teams of
    the other members registered, [Forward] returns having posted to
    exactly the other members, one post each, whatever the transport
    answers.  The other members are without repetition, and they are the
    members of [g] different from [c]: nothing is delivered to [c]. *)
Theorem Forward_delivers_once_to_each_other_member
    (env : Environ) cfg (heap : Arrays) gs g c :
  GetConfiguration env = Ret (cfg, heap) ->
  configured_groups env = Ret gs ->
  g ∈ gs -> c ∈ g ->
  (forall f : Channel -> M unit,
     Forward cfg heap c f = for_range (filter (fun o => c ≠ o) g) f) /\
  (forall (record : Channel -> Event) (σ : State),
     Forward cfg heap c (fun o => emit (record o)) σ
     = (Ret (), mkState (events σ ++ map record (filter (fun o => c ≠ o) g))
                        (msg σ))) /\
  (forall transport (σ : State),
     (forall o, o ∈ filter (fun o => c ≠ o) g -> is_Some (GetTeam cfg o)) ->
     exists σ',
       Forward cfg heap c (deliver cfg transport) σ = (Ret (), σ') /\
       deliveries (events σ')
       = deliveries (events σ) ++ filter (fun o => c ≠ o) g) /\
  NoDup (filter (fun o => c ≠ o) g) /\
  (c ∉ filter (fun o => c ≠ o) g) /\
  (forall o, o ∈ filter (fun o => c ≠ o) g <-> o ∈ g /\ o ≠ c).
Proof.
  intros H Hgs Hg Hc.
  pose proof (GetConfiguration_Ret _ _ _ H) as (Hh & Hnd & _).
  rewrite Hgs in Hh. inversion Hh; subst gs; clear Hh.
  assert (HF : forall f : Channel -> M unit,
            Forward cfg heap c f = for_range (filter (fun o => c ≠ o) g) f).
  { intros f. rewrite Forward_filter.
    by rewrite (peers_of_member _ _ _ _ _ H Hg Hc). }
  split_and!.
  - exact HF.
  - intros record σ. rewrite HF. apply for_range_record.
  - intros transport σ Hreg. rewrite HF.
    destruct (for_range_deliver cfg transport (filter (fun o => c ≠ o) g) σ Hreg)
      as (σ' & E & D & _).
    exists σ'. by split.
  - apply NoDup_filter. apply list_elem_of_lookup in Hg as [i Hi].
    rewrite <- (take_drop_middle _ _ _ Hi) in Hnd.
    rewrite concat_app in Hnd. simpl in Hnd.
    apply NoDup_app in Hnd as (_ & _ & Hnd).
    by apply NoDup_app in Hnd as (Hnd & _).
  - rewrite list_elem_of_filter. intros [Hne _]. by apply Hne.
  - intros o. rewrite list_elem_of_filter. split; intros [H1 H2]; split; auto.
Qed.

(** The message posted to [T1/C1], grouped with [T2/C2] and [T3/C3], is
    delivered twice: to [T2/C2], then to [T3/C3]. *)
Lemma Forward_delivers_once_to_each_other_member_witness :
  (GetConfiguration env1 = Ret (config_of env1, arrays_of env1) /\
   configured_groups env1 = Ret [[c11; c22; c33]] /\
   [c11; c22; c33] ∈ [[c11; c22; c33]] /\ c11 ∈ [c11; c22; c33]) /\
  Forward (config_of env1) (arrays_of env1) c11 record_delivery start
  = (Ret (), mkState [EvPost c22 "" (mkMessage zero_Channel "" "" "" false);
                      EvPost c33 "" (mkMessage zero_Channel "" "" "" false)]
                     (mkMessage zero_Channel "" "" "" false)) /\
  exists σ',
    Forward (config_of env1) (arrays_of env1) c11
            (deliver (config_of env1) transport_down) start = (Ret (), σ') /\
    deliveries (events σ') = [c22; c33].
Proof.
  assert (H1 : GetConfiguration env1 = Ret (config_of env1, arrays_of env1))
    by (vm_compute; reflexivity).
  assert (H2 : configured_groups env1 = Ret [[c11; c22; c33]])
    by (vm_compute; reflexivity).
  assert (H3 : [c11; c22; c33] ∈ [[c11; c22; c33]]) by apply list_elem_of_here.
  assert (H4 : c11 ∈ [c11; c22; c33]) by apply list_elem_of_here.
  split; [by repeat split|].
  destruct (Forward_delivers_once_to_each_other_member
              env1 _ _ _ _ c11 H1 H2 H3 H4) as (_ & Hrec & Hdel & _).
  split.
  - exact (Hrec (fun o => EvPost o "" (mkMessage zero_Channel "" "" "" false)) start).
  - apply (Hdel transport_down start).
    intros o Ho. change (o ∈ [c22; c33]) in Ho.
    repeat (apply elem_of_cons in Ho as [->|Ho]; [by eexists|]).
    by apply elem_of_nil in Ho.
Defined.

(** ** Avatar lookup *)

(** C9. For a verified request not from [slackbot] whose origin team is
    registered: when the user lookup of [FetchUserIcon] returns an error,
    [FetchUserIcon] returns that error without a panic and leaves the
    message as it was, avatar empty; the handler drops the error and goes
    on with [RewriteMentions] and [Forward] from that state; and if the
    rewriting returns and the teams of the peers are registered, the
    handler returns having posted to every peer other than the origin,
    the avatar still empty. *)
Theorem FetchUserIcon_failure_does_not_stop_forwarding
    cfg (heap : Arrays) users_info transport (c : gmap string string) (σ : State)
    (t : Team) (u : option User) (e : error) :
  VerifyToken cfg (msgChannel (message_of c)) (PostForm c "token") = true ->
  PostForm c "user_name" ≠ "slackbot" ->
  GetTeam cfg (msgChannel (message_of c)) = Some t ->
  users_info (events σ ++ [EvStatus 200]) (Client t) (PostForm c "user_name")
    = (u, Some e) ->
  let σ1 := mkState (events σ ++ [EvStatus 200]) (message_of c) in
  let σ2 := mkState (events σ ++ [EvStatus 200;
                                  EvGetUserInfo (Client t) (PostForm c "user_name")])
                    (message_of c) in
  let origin := msgChannel (message_of c) in
  FetchUserIcon cfg users_info σ1 = (Ret (Some e), σ2) /\
  Icon (msg σ2) = "" /\
  bridge cfg heap users_info transport c σ
  = (RewriteMentions cfg users_info;;
     m ← get_msg;
     Forward cfg heap (msgChannel m)
       (fun o => WebhookPostMessage cfg transport o;; mret ())) σ2 /\
  (forall σ3,
     RewriteMentions cfg users_info σ2 = (Ret (), σ3) ->
     (forall o, o ∈ peers cfg heap origin -> o ≠ origin ->
                is_Some (GetTeam cfg o)) ->
     exists σ',
       bridge cfg heap users_info transport c σ = (Ret (), σ') /\
       deliveries (events σ')
       = deliveries (events σ) ++ filter (fun o => origin ≠ o) (peers cfg heap origin) /\
       Icon (msg σ') = "").
Proof.
  intros Hv Hu Ht Hui σ1 σ2 origin.
  assert (Hfetch : FetchUserIcon cfg users_info σ1 = (Ret (Some e), σ2)).
  { unfold FetchUserIcon, mbind, M_bind, get_msg, σ1, σ2.
    cbn [msg events]. rewrite Ht. cbn [GetUserInfo events msg].
    cbn [Username message_of] in *. rewrite Hui.
    cbn [fst snd]. by rewrite <- app_assoc. }
  assert (Hbridge : bridge cfg heap users_info transport c σ
    = (RewriteMentions cfg users_info;;
       m ← get_msg;
       Forward cfg heap (msgChannel m)
         (fun o => WebhookPostMessage cfg transport o;; mret ())) σ2).
  { unfold σ1, σ2, message_of in *. cbn [msgChannel] in Hv.
    unfold bridge.
    unfold mbind at 1, M_bind at 1. cbn [set_msg events msg].
    unfold mbind at 1, M_bind at 1. cbn [emit events msg].
    unfold mbind at 1, M_bind at 1. cbn [get_msg events msg msgChannel].
    rewrite Hv. cbn [negb].
    unfold mbind at 1, M_bind at 1. cbn [get_msg events msg Username].
    destruct (decide (PostForm c "user_name" = "slackbot")) as [|_]; [done|].
    unfold mbind at 1, M_bind at 1.
    rewrite Hfetch. reflexivity. }
  split_and!; auto.
  intros σ3 Hrw Hreg. rewrite Hbridge.
  unfold mbind at 1, M_bind at 1. rewrite Hrw.
  unfold mbind at 1, M_bind at 1. simpl.
  pose proof (RewriteMentions_fields cfg users_info σ2) as (Hch & _ & Hic).
  rewrite Hrw in Hch, Hic. cbn [snd] in Hch, Hic. rewrite Hch.
  change (msgChannel (msg σ2)) with origin.
  destruct (appends_RewriteMentions internal cfg users_info (fun e H => H) σ2)
    as (evs & Hev & Hint).
  rewrite Hrw in Hev. simpl in Hev.
  destruct (for_range_deliver cfg transport
              (filter (fun o => origin ≠ o) (peers cfg heap origin)) σ3)
    as (σ' & E & D & I).
  { intros o Ho. apply list_elem_of_filter in Ho as [Hne Ho]. apply Hreg; auto. }
  exists σ'. rewrite Forward_filter, E.
  split_and!; [done| |by rewrite I, Hic].
  rewrite D, Hev, !deliveries_app, (deliveries_internal evs Hint).
  simpl. by rewrite !app_nil_r.
Qed.

Lemma FetchUserIcon_failure_does_not_stop_forwarding_witness :
  (VerifyToken (config_of env1)
     (msgChannel (message_of (request "T1" "C1" "bob" "hello" "s1")))
     (PostForm (request "T1" "C1" "bob" "hello" "s1") "token") = true /\
   PostForm (request "T1" "C1" "bob" "hello" "s1") "user_name" ≠ "slackbot" /\
   GetTeam (config_of env1)
     (msgChannel (message_of (request "T1" "C1" "bob" "hello" "s1")))
   = Some (mkTeam "T1" "xoxp-1" "B1/k1") /\
   no_user ([] ++ [EvStatus 200]) "xoxp-1" "bob" = (None, Some "user_not_found")) /\
  FetchUserIcon (config_of env1) no_user
    (mkState [EvStatus 200] (mkMessage c11 "bob" "hello" "" false))
  = (Ret (Some "user_not_found"),
     mkState [EvStatus 200; EvGetUserInfo "xoxp-1" "bob"]
             (mkMessage c11 "bob" "hello" "" false)) /\
  bridge (config_of env1) (arrays_of env1) no_user transport_ok
         (request "T1" "C1" "bob" "hello" "s1") start
  = (Ret (),
     mkState [EvStatus 200; EvGetUserInfo "xoxp-1" "bob";
              EvPost c22 "https://hooks.slack.com/services//T2/B2/k2"
                (mkMessage c11 "bob" "hello" "" true);
              EvPost c33 "https://hooks.slack.com/services//T3/B3/k3"
                (mkMessage c11 "bob" "hello" "" true)]
             (mkMessage c11 "bob" "hello" "" true)).
Proof.
  assert (H1 : VerifyToken (config_of env1)
     (msgChannel (message_of (request "T1" "C1" "bob" "hello" "s1")))
     (PostForm (request "T1" "C1" "bob" "hello" "s1") "token") = true)
    by (vm_compute; reflexivity).
  assert (H2 : PostForm (request "T1" "C1" "bob" "hello" "s1") "user_name"
               ≠ "slackbot") by (vm_compute; discriminate).
  assert (H3 : GetTeam (config_of env1)
     (msgChannel (message_of (request "T1" "C1" "bob" "hello" "s1")))
     = Some (mkTeam "T1" "xoxp-1" "B1/k1")) by (vm_compute; reflexivity).
  assert (H4 : no_user ([] ++ [EvStatus 200]) "xoxp-1" "bob"
               = (None, Some "user_not_found")) by reflexivity.
  split; [by repeat split|].
  destruct (FetchUserIcon_failure_does_not_stop_forwarding
              (config_of env1) (arrays_of env1) no_user transport_ok
              (request "T1" "C1" "bob" "hello" "s1") start
              (mkTeam "T1" "xoxp-1" "B1/k1") None "user_not_found"
              H1 H2 H3 H4) as (Hf & _ & Hb & _).
  split.
  - exact Hf.
  - rewrite Hb. vm_compute. reflexivity.
Defined.

(** ** Strings *)

#[local] Arguments String.append !_ _ : simpl nomatch.

Lemma append_nil_r (s : string) : s +:+ "" = s.
Proof. induction s as [|a s IH]; simpl; [done|]. by rewrite IH. Qed.

Lemma append_assoc (s t u : string) : (s +:+ t) +:+ u = s +:+ t +:+ u.
Proof. induction s as [|a s IH]; simpl; [done|]. by rewrite IH. Qed.

Lemma length_append (s t : string) :
  String.length (s +:+ t) = String.length s + String.length t.
Proof. induction s as [|a s IH]; simpl; [done|]. by rewrite IH. Qed.

Lemma substring_prefix (s t : string) :
  String.substring 0 (String.length s) (s +:+ t) = s.
Proof.
  induction s as [|a s IH]; simpl.
  - by destruct t.
  - by rewrite IH.
Qed.

Lemma Contains_append (s t : string) sep :
  Contains (s +:+ t) sep = Contains s sep || Contains t sep.
Proof.
  induction s as [|a s IH]; simpl; [done|].
  destruct (decide (a = sep)); [done | exact IH].
Qed.

Lemma Split_no_sep (s : string) sep :
  Contains s sep = false -> Split s sep = [s].
Proof.
  induction s as [|a s IH]; simpl; [done|].
  destruct (decide (a = sep)); [discriminate|].
  intros H. by rewrite (IH H).
Qed.

Lemma Split_first (s t : string) sep :
  Contains s sep = false ->
  Split (s +:+ String sep t) sep = s :: Split t sep.
Proof.
  induction s as [|a s IH]; simpl.
  - intros _. by rewrite decide_True.
  - destruct (decide (a = sep)); [discriminate|].
    intros H. by rewrite (IH H).
Qed.

(** ** The regular expression *)

Lemma until_close_body (body rest : string) :
  Contains body ">" = false ->
  until_close (body +:+ String ">" rest) = Some body.
Proof.
  induction body as [|a body IH]; simpl; [done|].
  destruct (decide (a = ">"%char)); [discriminate|].
  intros H. by rewrite (IH H).
Qed.

Lemma until_close_Some (s body : string) :
  until_close s = Some body ->
  Contains body ">" = false /\ exists rest, s = body +:+ String ">" rest.
Proof.
  revert body. induction s as [|a s IH]; intros body; simpl; [discriminate|].
  destruct (decide (a = ">"%char)) as [->|Hne].
  - intros [= <-]. split; [done|]. by exists s.
  - destruct (until_close s) as [b|]; simpl; [|discriminate].
    intros [= <-]. destruct (IH b eq_refl) as (Hb & rest & ->).
    split.
    + simpl. by rewrite decide_False.
    + by exists rest.
Qed.

(** [match_at] decides the language of [<@[^>]+>] at the start of [s]:
    ["<@"], then one byte or more other than [>], then [>]. *)
Lemma match_at_Some (s m : string) :
  match_at s = Some m <->
  exists body rest,
    body ≠ "" /\ Contains body ">" = false /\
    m = mention body /\ s = mention body +:+ rest.
Proof.
  split.
  - destruct s as [|a [|b s]]; simpl; try discriminate.
    destruct (decide (a = "<"%char /\ b = "@"%char)) as [[-> ->]|]; [|discriminate].
    destruct (until_close s) as [[|x body]|] eqn:E; try discriminate.
    intros [= <-]. apply until_close_Some in E as (Hc & rest & ->).
    exists (String x body), rest. split_and!; auto.
    unfold mention. simpl. by rewrite append_assoc.
  - intros (body & rest & Hne & Hc & -> & ->).
    unfold mention. simpl. rewrite append_assoc. simpl.
    rewrite until_close_body by done.
    by destruct body.
Qed.

Lemma match_at_mention (body rest : string) :
  body ≠ "" -> Contains body ">" = false ->
  match_at (mention body +:+ rest) = Some (mention body).
Proof. intros. apply match_at_Some. eauto 6. Qed.

Lemma no_match_without_open (pre rest : string) :
  Contains pre "<" = false -> no_match_in pre rest = true.
Proof.
  induction pre as [|a pre IH]; simpl; [done|].
  destruct (decide (a = "<"%char)) as [|Hne]; [discriminate|]. intros H.
  destruct (pre +:+ rest) eqn:E; rewrite ?E; simpl.
  - by apply IH.
  - rewrite decide_False by tauto. by apply IH.
Qed.

Lemma scan_skip (x rest : string) :
  scan (x +:+ rest) (String.length x) = scan rest 0.
Proof. induction x as [|a x IH]; simpl; [done | exact IH]. Qed.

Lemma scan_mention (body rest : string) :
  body ≠ "" -> Contains body ">" = false ->
  scan (mention body +:+ rest) 0 = Found (mention body) :: scan rest 0.
Proof.
  intros Hne Hc.
  pose proof (match_at_mention body rest Hne Hc) as Hm.
  unfold mention in *. simpl in Hm. simpl scan.
  cbn [String.append] in Hm |- *.
  change (scan (String "<" ?s) 0) with
    (match match_at (String "<" s) with
     | Some m => Found m :: scan s (String.length m - 1)
     | None => Copy "<" :: scan s 0
     end).
  rewrite Hm. f_equal. cbn [String.length]. rewrite Nat.sub_succ, Nat.sub_0_r.
  change (String "@" ((body +:+ ">") +:+ rest))
    with (String "@" (body +:+ ">") +:+ rest).
  apply scan_skip.
Qed.

Lemma scan_no_match (pre rest : string) :
  no_match_in pre rest = true ->
  scan (pre +:+ rest) 0 = copies pre ++ scan rest 0.
Proof.
  induction pre as [|a pre IH]; [done|].
  cbn [no_match_in]. intros H.
  change (scan (String a pre +:+ rest) 0) with
    (match match_at (String a pre +:+ rest) with
     | Some m => Found m :: scan (pre +:+ rest) (String.length m - 1)
     | None => Copy a :: scan (pre +:+ rest) 0
     end).
  destruct (match_at (String a pre +:+ rest)); [discriminate|].
  simpl. by rewrite IH.
Qed.

(** ** Replacement *)

Lemma replace_copies (pre : string) segs repl σ :
  replace_segments (copies pre ++ segs) repl σ
  = (out ← replace_segments segs repl; mret (pre +:+ out)) σ.
Proof.
  induction pre as [|a pre IH]; simpl.
  - unfold mbind, M_bind.
    by destruct (replace_segments segs repl σ) as [[out|p] σ'].
  - unfold mbind, M_bind in *. rewrite IH.
    by destruct (replace_segments segs repl σ) as [[out|p] σ'].
Qed.

Lemma replace_copies_only (pre : string) repl σ :
  replace_segments (copies pre) repl σ = (Ret pre, σ).
Proof.
  rewrite <- (app_nil_r (copies pre)), replace_copies. simpl.
  unfold mbind, M_bind. simpl. by rewrite append_nil_r.
Qed.

(** What the callback is given is the text between ["<@"] and [">"]. *)
Lemma slice_mention (body : string) :
  slice (mention body) 2 (Z.of_nat (String.length (mention body)) - 1) = Ret body.
Proof.
  unfold slice, mention. simpl String.length. rewrite length_append. simpl.
  rewrite decide_True by lia.
  replace (Z.to_nat _) with (String.length body) by lia.
  f_equal. simpl. apply substring_prefix.
Qed.

(** A token with an inline name: the callback answers ["@"] and the text
    between the first separator and the second (or the end), and touches
    nothing. *)
Lemma rewrite_mention_inline cfg users_info (id name tail : string) σ :
  Contains id "|" = false ->
  Contains name "|" = false ->
  tail = "" \/ (exists extra, tail = String "|" extra) ->
  rewrite_mention cfg users_info (mention (id +:+ String "|" (name +:+ tail))) σ
  = (Ret ("@" +:+ name), σ).
Proof.
  intros Hid Hname Htail. unfold rewrite_mention.
  unfold mbind at 1, M_bind at 1, lift. rewrite slice_mention.
  rewrite Contains_append. cbn [Contains]. rewrite decide_True by done.
  rewrite orb_true_r. rewrite Split_first by done.
  assert (Hs : exists rest, Split (name +:+ tail) "|" = name :: rest).
  { destruct Htail as [->|[extra ->]].
    - rewrite append_nil_r, Split_no_sep by done. eauto.
    - rewrite Split_first by done. eauto. }
  destruct Hs as [rest ->]. reflexivity.
Qed.


Lemma replace_inline cfg users_info (id name tail : string) segs σ :
  Contains id "|" = false ->
  Contains name "|" = false ->
  tail = "" \/ (exists extra, tail = String "|" extra) ->
  replace_segments (Found (mention (id +:+ String "|" (name +:+ tail))) :: segs)
                   (rewrite_mention cfg users_info) σ
  = (out ← replace_segments segs (rewrite_mention cfg users_info);
     mret ("@" +:+ name +:+ out)) σ.
Proof.
  intros Hid Hname Htail. cbn [replace_segments].
  unfold mbind at 1, M_bind at 1.
  by rewrite rewrite_mention_inline.
Qed.

Lemma RewriteMentions_run cfg users_info σ :
  RewriteMentions cfg users_info σ
  = match ReplaceAllStringFunc (Text (msg σ)) (rewrite_mention cfg users_info) σ with
    | (Ret text, σ') => (Ret (), mkState (events σ') (with_text (msg σ') text))
    | (Panicked p, σ') => (Panicked p, σ')
    end.
Proof.
  unfold RewriteMentions, mbind, M_bind, get_msg, set_msg.
  by destruct (ReplaceAllStringFunc _ _ σ) as [[text|p] σ'].
Qed.

Lemma with_text_same σ : mkState (events σ) (with_text (msg σ) (Text (msg σ))) = σ.
Proof. by destruct σ as [evs []]. Qed.

(** ** Matches before a token *)




Lemma scan_unfold a (s : string) :
  scan (String a s) 0
  = match match_at (String a s) with
    | Some m => Found m :: scan s (String.length m - 1)
    | None => Copy a :: scan s 0
    end.
Proof. reflexivity. Qed.


Lemma no_match_none_straddles (pre rest : string) :
  no_match_in pre rest = true -> none_straddles pre rest = true.
Proof.
  induction pre as [|a p IH]; [done|]. cbn [no_match_in none_straddles].
  destruct (match_at (String a p +:+ rest)); [discriminate | exact IH].
Qed.


(** ** Claims on mention rewriting *)



(** C10. A token with more than one separator, [<@id|name|extra>], is
    replaced by [@name], the text between the first separator and the
    second: what follows the second separator is dropped, whatever it is
    (it may hold further separators), and the user lookup is not
    consulted.  This holds for the callback and for the pass over a text
    that is this token. *)
Theorem rewrite_mention_uses_second_segment
    cfg users_info (id name extra : string) σ :
  Contains id "|" = false -> Contains name "|" = false ->
  Contains id ">" = false -> Contains name ">" = false ->
  Contains extra ">" = false ->
  rewrite_mention cfg users_info
    (mention (id +:+ String "|" (name +:+ String "|" extra))) σ
  = (Ret ("@" +:+ name), σ) /\
  ReplaceAllStringFunc (mention (id +:+ String "|" (name +:+ String "|" extra)))
                       (rewrite_mention cfg users_info) σ
  = (Ret ("@" +:+ name), σ).
Proof.
  intros Hi1 Hn1 Hi2 Hn2 He2.
  assert (Htail : String "|" extra = "" \/
                  exists extra', String "|" extra = String "|" extra') by eauto.
  split; [by apply rewrite_mention_inline|].
  unfold ReplaceAllStringFunc.
  rewrite <- (append_nil_r (mention _)).
  rewrite scan_mention.
  - rewrite replace_inline by done. simpl.
    unfold mbind, M_bind. simpl. by rewrite append_nil_r.
  - by destruct id.
  - rewrite Contains_append, Hi2. cbn [Contains orb].
    rewrite decide_False by done.
    rewrite Contains_append, Hn2. cbn [Contains orb].
    by rewrite decide_False.
Qed.

Lemma rewrite_mention_uses_second_segment_witness :
  (Contains "U123" "|" = false /\ Contains "alice" "|" = false /\
   Contains "U123" ">" = false /\ Contains "alice" ">" = false /\
   Contains "extra" ">" = false) /\
  rewrite_mention (config_of env1) no_user "<@U123|alice|extra>" start
  = (Ret "@alice", start) /\
  ReplaceAllStringFunc "<@U123|alice|extra>"
                       (rewrite_mention (config_of env1) no_user) start
  = (Ret "@alice", start).
Proof.
  split; [by repeat split|].
  exact (rewrite_mention_uses_second_segment (config_of env1) no_user
           "U123" "alice" "extra" start
           eq_refl eq_refl eq_refl eq_refl eq_refl).
Defined.

(** A token without an inline name: the user is looked up, and the two
    branches on the result are the wrong way round. *)
Lemma rewrite_mention_lookup cfg users_info (body : string) t σ :
  Contains body "|" = false ->
  GetTeam cfg (msgChannel (msg σ)) = Some t ->
  rewrite_mention cfg users_info (mention body) σ
  = let σ1 := mkState (events σ ++ [EvGetUserInfo (Client t) body]) (msg σ) in
    match users_info (events σ) (Client t) body with
    | (_, None) =>
        (Ret ("@" +:+ body),
         mkState (events σ1 ++ [EvLog (LogUnableToMap body None)]) (msg σ))
    | (Some u, Some _) => (Ret ("@" +:+ Name u), σ1)
    | (None, Some _) => (Panicked NilDereference, σ1)
    end.
Proof.
  intros Hb Ht. unfold rewrite_mention.
  unfold mbind at 1, M_bind at 1, lift. rewrite slice_mention, Hb.
  unfold mbind, M_bind, get_msg. rewrite Ht. cbn [GetUserInfo].
  by destruct (users_info _ _ _) as [[u|] [e|]].
Qed.

(** C1. For a token [<@id>] without an inline name, a successful lookup is
    to give [@] and the display name, and a failed one [@id] and a logged
    warning.  The code has the two branches the wrong way round.  On
    [hi <@U123>!], with team T1 registered: when the lookup succeeds with
    the user [alice], the token becomes [@U123] and "Unable to map" is
    logged; when the lookup fails and gives no user, the rewriting panics
    on the nil user and the text is not changed; when the lookup fails and
    gives a user all the same, the token becomes [@] and that user's
    name. *)
Theorem RewriteMentions_lookup_branches_inverted :
  RewriteMentions (config_of env1) alice_for_all
    (mkState [] (mkMessage c11 "bob" "hi <@U123>!" "" false))
  = (Ret (), mkState [EvGetUserInfo "xoxp-1" "U123";
                      EvLog (LogUnableToMap "U123" None)]
                     (mkMessage c11 "bob" "hi @U123!" "" false)) /\
  RewriteMentions (config_of env1) no_user
    (mkState [] (mkMessage c11 "bob" "hi <@U123>!" "" false))
  = (Panicked NilDereference,
     mkState [EvGetUserInfo "xoxp-1" "U123"]
             (mkMessage c11 "bob" "hi <@U123>!" "" false)) /\
  RewriteMentions (config_of env1) stale_user
    (mkState [] (mkMessage c11 "bob" "hi <@U123>!" "" false))
  = (Ret (), mkState [EvGetUserInfo "xoxp-1" "U123"]
                     (mkMessage c11 "bob" "hi @ghost!" "" false)).
Proof. split_and!; vm_compute; reflexivity. Qed.


(** * Further properties *)

(** ** Splitting *)

Lemma Split_length (s : string) sep :
  length (Split s sep) = S (count_sep s sep).
Proof.
  induction s as [|a s IH]; simpl; [done|].
  destruct (decide (a = sep)); simpl; [by rewrite IH|].
  destruct (Split s sep) as [|p ps]; simpl in *; lia.
Qed.

Lemma Contains_count (s : string) sep :
  Contains s sep = false <-> count_sep s sep = 0.
Proof.
  induction s as [|a s IH]; simpl; [done|].
  destruct (decide (a = sep)); simpl; [split; [discriminate | lia] | exact IH].
Qed.

Lemma index_Split (s : string) sep i :
  (i <= count_sep s sep /\ exists p, index (Split s sep) i = Ret p) \/
  (count_sep s sep < i /\ index (Split s sep) i = Panicked IndexOutOfRange).
Proof.
  unfold index. destruct (Split s sep !! i) as [p|] eqn:E.
  - left. apply lookup_lt_Some in E. rewrite Split_length in E.
    split; [lia | eauto].
  - right. apply lookup_ge_None in E. rewrite Split_length in E.
    split; [lia | done].
Qed.

Lemma Split_second (s t tail : string) sep :
  Contains s sep = false ->
  Contains t sep = false ->
  tail = "" \/ (exists extra, tail = String sep extra) ->
  exists rest, Split (s +:+ String sep (t +:+ tail)) sep = s :: t :: rest.
Proof.
  intros Hs Ht Htail. rewrite Split_first by done.
  destruct Htail as [->|[extra ->]].
  - rewrite append_nil_r, Split_no_sep by done. eauto.
  - rewrite Split_first by done. eauto.
Qed.

(** ** [MakeChannel] and [NewTeam] *)

(** X1. [MakeChannel] panics, with an index out of range, on exactly the
    strings that hold no ["/"]; on every other string it returns a
    channel. *)
Theorem MakeChannel_panics_without_slash (s : string) :
  (Contains s "/" = false /\ MakeChannel s = Panicked IndexOutOfRange) \/
  (Contains s "/" = true /\ exists c, MakeChannel s = Ret c).
Proof.
  unfold MakeChannel.
  destruct (index_Split s "/" 0) as [(_ & p0 & E0)|[H _]]; [|lia].
  rewrite E0. simpl.
  destruct (index_Split s "/" 1) as [(H & p1 & E1)|[H E1]]; rewrite E1; simpl.
  - right. split; [|eauto].
    destruct (Contains s "/") eqn:C; [done|].
    apply Contains_count in C. lia.
  - left. split; [|done]. apply Contains_count. lia.
Qed.

(** X2. [MakeChannel] reads the team up to the first ["/"] and the channel
    up to the second ["/"] or the end; what follows a second ["/"] is
    dropped. *)
Theorem MakeChannel_reads_two_parts (team channel tail : string) :
  Contains team "/" = false ->
  Contains channel "/" = false ->
  tail = "" \/ (exists extra, tail = String "/" extra) ->
  MakeChannel (team +:+ String "/" (channel +:+ tail)) = Ret (mkChannel team channel).
Proof.
  intros Ht Hc Htail. unfold MakeChannel.
  destruct (Split_second team channel tail "/" Ht Hc Htail) as [rest ->].
  reflexivity.
Qed.

Lemma MakeChannel_reads_two_parts_witness :
  (Contains "T1" "/" = false /\ Contains "C1" "/" = false /\
   ("/x/y" = "" \/ exists extra, "/x/y" = String "/" extra)) /\
  MakeChannel "T1/C1/x/y" = Ret (mkChannel "T1" "C1").
Proof.
  assert (H3 : "/x/y" = "" \/ exists extra, "/x/y" = String "/" extra)
    by (right; by exists "x/y").
  split; [by repeat split|].
  exact (MakeChannel_reads_two_parts "T1" "C1" "/x/y" eq_refl eq_refl H3).
Defined.

(** X3. [NewTeam] panics, with an index out of range, on exactly the
    strings with fewer than two [":"]; on every other string it returns a
    team. *)
Theorem NewTeam_panics_below_two_colons (s : string) :
  (count_sep s ":" < 2 /\ NewTeam s = Panicked IndexOutOfRange) \/
  (2 <= count_sep s ":" /\ exists t, NewTeam s = Ret t).
Proof.
  unfold NewTeam.
  destruct (index_Split s ":" 0) as [(_ & p0 & E0)|[H _]]; [|lia].
  rewrite E0. simpl.
  destruct (index_Split s ":" 1) as [(H1 & p1 & E1)|[H1 E1]]; rewrite E1; simpl.
  - destruct (index_Split s ":" 2) as [(H2 & p2 & E2)|[H2 E2]]; rewrite E2; simpl.
    + right. split; [lia | eauto].
    + left. split; [lia | done].
  - left. split; [lia | done].
Qed.

(** X4. [NewTeam] reads the id up to the first [":"], the API token up to
    the second and the incoming token up to the third or the end; what
    follows a third [":"] is dropped. *)
Theorem NewTeam_reads_three_parts (id api incoming tail : string) :
  Contains id ":" = false ->
  Contains api ":" = false ->
  Contains incoming ":" = false ->
  tail = "" \/ (exists extra, tail = String ":" extra) ->
  NewTeam (id +:+ String ":" (api +:+ String ":" (incoming +:+ tail)))
  = Ret (mkTeam id api incoming).
Proof.
  intros Hi Ha Hn Htail. unfold NewTeam.
  rewrite Split_first by done.
  destruct (Split_second api incoming tail ":" Ha Hn Htail) as [rest ->].
  reflexivity.
Qed.

Lemma NewTeam_reads_three_parts_witness :
  (Contains "T1" ":" = false /\ Contains "xoxp-1" ":" = false /\
   Contains "B1/k1" ":" = false /\
   ("" = "" \/ exists extra, "" = String ":" extra)) /\
  NewTeam "T1:xoxp-1:B1/k1" = Ret (mkTeam "T1" "xoxp-1" "B1/k1").
Proof.
  assert (H4 : "" = "" \/ exists extra, "" = String ":" extra) by by left.
  split; [by repeat split|].
  exact (NewTeam_reads_three_parts "T1" "xoxp-1" "B1/k1" ""
           eq_refl eq_refl eq_refl H4).
Defined.


(** ** The teams and the tokens of a configuration *)

Lemma load_teams_spec l : forall m,
  load_teams l m
  = ts ← parse_teams l; Ret (foldl (fun m t => <[Id t := t]> m) m ts).
Proof.
  induction l as [|s l IH]; intros m; simpl; [done|].
  destruct (NewTeam s) as [t|p]; simpl; [|done].
  rewrite IH. by destruct (parse_teams l).
Qed.

Lemma load_tokens_spec l : forall m,
  load_tokens l m
  = es ← parse_tokens l; Ret (foldl (fun m e => <[e.1 := e.2]> m) m es).
Proof.
  induction l as [|s l IH]; intros m; simpl; [done|].
  unfold parse_token.
  destruct (index (Split s ":") 0) as [p0|p]; simpl; [|done].
  destruct (MakeChannel p0) as [c|p]; simpl; [|done].
  destruct (index (Split s ":") 1) as [p1|p]; simpl; [|done].
  rewrite IH. by destruct (parse_tokens l).
Qed.

Section FoldInsert.

Context {K : Type} `{Countable K} {V X : Type}.
Variable kf : X -> K.
Variable vf : X -> V.

Let ins (m : gmap K V) (x : X) : gmap K V := <[kf x := vf x]> m.

Lemma foldl_insert_notin (l : list X) : forall (m : gmap K V) k,
  k ∉ kf <$> l -> foldl ins m l !! k = m !! k.
Proof.
  induction l as [|x l IH]; intros m k Hk; simpl; [done|].
  rewrite fmap_cons, not_elem_of_cons in Hk. destruct Hk as [Hne Hk].
  rewrite IH by done. unfold ins. by rewrite lookup_insert_ne.
Qed.

Lemma foldl_insert_last (before after : list X) x (m : gmap K V) :
  kf x ∉ kf <$> after ->
  foldl ins m (before ++ x :: after) !! kf x = Some (vf x).
Proof.
  intros Hk. rewrite foldl_app. simpl.
  rewrite foldl_insert_notin by done. unfold ins at 1.
  by rewrite lookup_insert_eq.
Qed.

Lemma foldl_insert_Some (l : list X) : forall (m : gmap K V) k v,
  foldl ins m l !! k = Some v ->
  m !! k = Some v \/ exists x, x ∈ l /\ kf x = k /\ vf x = v.
Proof.
  induction l as [|x l IH]; intros m k v Hv; simpl in *; [auto|].
  apply IH in Hv as [Hv|(y & Hy & E)].
  - unfold ins in Hv. apply lookup_insert_Some in Hv as [[<- <-]|[_ Hv]]; [|auto].
    right. exists x. split; [apply list_elem_of_here | done].
  - right. exists y. split; [by apply list_elem_of_further | done].
Qed.

Lemma foldl_insert_is_Some (l : list X) : forall (m : gmap K V) k,
  is_Some (m !! k) \/ k ∈ kf <$> l -> is_Some (foldl ins m l !! k).
Proof.
  induction l as [|x l IH]; intros m k Hk; simpl.
  - destruct Hk as [Hk|Hk]; [done | by apply elem_of_nil in Hk].
  - apply IH. unfold ins. rewrite lookup_insert_is_Some.
    rewrite fmap_cons, elem_of_cons in Hk.
    destruct (decide (kf x = k)); [auto|].
    destruct Hk as [Hk|[Hk|Hk]]; auto.
Qed.

End FoldInsert.

Lemma GetConfiguration_parts env cfg (heap : Arrays) :
  GetConfiguration env = Ret (cfg, heap) ->
  exists ts es,
    configured_teams env = Ret ts /\
    configured_tokens env = Ret es /\
    teams cfg = foldl (fun m t => <[Id t := t]> m) ∅ ts /\
    outboundTokens cfg = foldl (fun m e => <[e.1 := e.2]> m) ∅ es.
Proof.
  unfold GetConfiguration, configured_teams, configured_tokens. intros H.
  inv_outcome H. inv_outcome H. destruct x0 as [cm h]. inv_outcome H.
  inversion H; subst; clear H. simpl.
  rewrite load_teams_spec in E. rewrite load_tokens_spec in E1.
  destruct (parse_teams _) as [ts|]; [|discriminate].
  destruct (parse_tokens _) as [es|]; [|discriminate].
  simpl in *. inversion E; inversion E1; subst. by exists ts, es.
Qed.

(** X5. In a configuration that [GetConfiguration] has built, the team
    registry is keyed by team id and holds configured teams only; every
    configured team id resolves; and of several teams with one id, the
    last in [SLACKLINE_TEAMS] is the one registered. *)
Theorem GetConfiguration_teams env cfg (heap : Arrays) :
  GetConfiguration env = Ret (cfg, heap) ->
  exists ts,
    configured_teams env = Ret ts /\
    (forall k t, teams cfg !! k = Some t -> Id t = k /\ t ∈ ts) /\
    (forall t, t ∈ ts -> is_Some (teams cfg !! Id t)) /\
    (forall before t after,
       ts = before ++ t :: after -> Id t ∉ Id <$> after ->
       teams cfg !! Id t = Some t).
Proof.
  intros H. apply GetConfiguration_parts in H as (ts & es & Hts & _ & Ht & _).
  exists ts. rewrite Ht. split_and!; [done|..].
  - intros k t Hk.
    apply (foldl_insert_Some Id (fun t => t)) in Hk as [Hk|(x & Hx & <- & <-)];
      [by rewrite lookup_empty in Hk | done].
  - intros t Hin. apply (foldl_insert_is_Some Id (fun t => t)).
    right. by apply list_elem_of_fmap_2.
  - intros before t after -> Hlast.
    by apply (foldl_insert_last Id (fun t => t)).
Qed.


Lemma GetConfiguration_teams_witness :
  GetConfiguration env1 = Ret (config_of env1, arrays_of env1) /\
  exists ts,
    configured_teams env1 = Ret ts /\
    (forall k t, teams (config_of env1) !! k = Some t -> Id t = k /\ t ∈ ts) /\
    (forall t, t ∈ ts -> is_Some (teams (config_of env1) !! Id t)) /\
    (forall before t after,
       ts = before ++ t :: after -> Id t ∉ Id <$> after ->
       teams (config_of env1) !! Id t = Some t).
Proof.
  assert (H : GetConfiguration env1 = Ret (config_of env1, arrays_of env1))
    by (vm_compute; reflexivity).
  split; [exact H|].
  exact (GetConfiguration_teams env1 _ _ H).
Defined.

(** X6. In a configuration that [GetConfiguration] has built, the last
    entry of [SLACKLINE_OUTBOUND_TOKENS] for a channel decides: the channel
    verifies the secret of that entry and no other token. *)
Theorem GetConfiguration_tokens env cfg (heap : Arrays) :
  GetConfiguration env = Ret (cfg, heap) ->
  exists es,
    configured_tokens env = Ret es /\
    forall before c secret after token,
      es = before ++ (c, secret) :: after -> c ∉ after.*1 ->
      (VerifyToken cfg c token = true <-> token = secret).
Proof.
  intros H. apply GetConfiguration_parts in H as (ts & es & _ & Hes & _ & Ht).
  exists es. split; [done|].
  intros before c secret after token -> Hlast.
  unfold VerifyToken. rewrite Ht.
  rewrite (foldl_insert_last fst snd before after (c, secret)) by done.
  simpl. rewrite bool_decide_eq_true. split; congruence.
Qed.

Lemma GetConfiguration_tokens_witness :
  GetConfiguration env1 = Ret (config_of env1, arrays_of env1) /\
  exists es,
    configured_tokens env1 = Ret es /\
    forall before c secret after token,
      es = before ++ (c, secret) :: after -> c ∉ after.*1 ->
      (VerifyToken (config_of env1) c token = true <-> token = secret).
Proof.
  assert (H : GetConfiguration env1 = Ret (config_of env1, arrays_of env1))
    by (vm_compute; reflexivity).
  split; [exact H|].
  exact (GetConfiguration_tokens env1 _ _ H).
Defined.

(** ** When [GetConfiguration] returns *)

Lemma MakeChannel_Ret_slash (s : string) c :
  MakeChannel s = Ret c -> Contains s "/" = true.
Proof.
  unfold MakeChannel. intros H. inv_outcome H. inv_outcome H.
  destruct (index_Split s "/" 1) as [(Hc & _)|[_ E']]; [|congruence].
  destruct (Contains s "/") eqn:C; [done|].
  apply Contains_count in C. lia.
Qed.

Lemma NewTeam_Ret_colons (s : string) t :
  NewTeam s = Ret t -> 2 <= count_sep s ":".
Proof.
  unfold NewTeam. intros H. inv_outcome H. inv_outcome H. inv_outcome H.
  destruct (index_Split s ":" 2) as [(Hc & _)|[_ E']]; [done | congruence].
Qed.

Lemma Split_head (s : string) sep p ps :
  Split s sep = p :: ps -> exists rest, s = p +:+ rest.
Proof.
  revert p ps. induction s as [|a s IH]; intros p ps; simpl.
  - intros [= <- <-]. by exists "".
  - destruct (decide (a = sep)).
    + intros [= <- <-]. by exists (String a s).
    + destruct (Split s sep) as [|q qs]; intros [= <- <-].
      * by exists s.
      * destruct (IH q qs eq_refl) as [rest ->]. by exists rest.
Qed.

Lemma parse_token_Ret (s : string) e :
  parse_token s = Ret e -> Contains s ":" = true /\ Contains s "/" = true.
Proof.
  unfold parse_token. intros H. inv_outcome H. inv_outcome H. inv_outcome H.
  split.
  - destruct (index_Split s ":" 1) as [(Hc & _)|[_ E']]; [|congruence].
    destruct (Contains s ":") eqn:C; [done|].
    apply Contains_count in C. lia.
  - apply MakeChannel_Ret_slash in E0. apply index_Ret in E.
    destruct (Split s ":") as [|p ps] eqn:Es; [done|].
    simpl in E. inversion E; subst p.
    destruct (Split_head _ _ _ _ Es) as [rest ->].
    by rewrite Contains_append, E0.
Qed.

Lemma parse_teams_Ret l ts s :
  parse_teams l = Ret ts -> s ∈ l -> exists t, NewTeam s = Ret t.
Proof.
  revert ts. induction l as [|x l IH]; intros ts H Hs; simpl in H.
  - by apply elem_of_nil in Hs.
  - inv_outcome H. inv_outcome H.
    apply elem_of_cons in Hs as [->|Hs]; eauto.
Qed.

Lemma parse_tokens_Ret l es s :
  parse_tokens l = Ret es -> s ∈ l -> exists e, parse_token s = Ret e.
Proof.
  revert es. induction l as [|x l IH]; intros es H Hs; simpl in H.
  - by apply elem_of_nil in Hs.
  - inv_outcome H. inv_outcome H.
    apply elem_of_cons in Hs as [->|Hs]; eauto.
Qed.

Lemma parse_channels_Ret l cs s :
  parse_channels l = Ret cs -> s ∈ l -> exists c, MakeChannel s = Ret c.
Proof.
  revert cs. induction l as [|x l IH]; intros cs H Hs; simpl in H.
  - by apply elem_of_nil in Hs.
  - inv_outcome H. inv_outcome H.
    apply elem_of_cons in Hs as [->|Hs]; eauto.
Qed.

Lemma parse_groups_Ret l gs s :
  parse_groups l = Ret gs ->
  s ∈ concat (map (fun g => Split g ":") l) ->
  exists c, MakeChannel s = Ret c.
Proof.
  revert gs. induction l as [|x l IH]; intros gs H Hs; simpl in *.
  - by apply elem_of_nil in Hs.
  - inv_outcome H. inv_outcome H.
    apply elem_of_app in Hs as [Hs|Hs]; [|eauto].
    eapply parse_channels_Ret; eauto.
Qed.

(** X7. A malformed entry is fatal: [GetConfiguration] panics when some
    team entry has fewer than two [":"], when some channel of the channel
    map has no ["/"], or when some token entry has no [":"] or no ["/"].
    An empty variable, a trailing comma and a doubled comma are such
    cases, their empty entry being malformed. *)
Theorem GetConfiguration_malformed_entry_is_fatal (env : Environ) :
  (exists s, s ∈ Split (SLACKLINE_TEAMS env) "," /\ count_sep s ":" < 2) \/
  (exists s, s ∈ channel_strs env /\ Contains s "/" = false) \/
  (exists s, s ∈ Split (SLACKLINE_OUTBOUND_TOKENS env) "," /\
             (Contains s ":" = false \/ Contains s "/" = false)) ->
  is_panic (GetConfiguration env).
Proof.
  intros Hbad.
  destruct (GetConfiguration env) as [[cfg heap]|p] eqn:H; [|exact I].
  exfalso.
  pose proof (GetConfiguration_parts _ _ _ H) as (ts & es & Hts & Hes & _).
  apply GetConfiguration_Ret in H as (Hgs & _).
  destruct Hbad as [(s & Hs & Hc)|[(s & Hs & Hc)|(s & Hs & Hc)]].
  - destruct (parse_teams_Ret _ _ _ Hts Hs) as [t Ht].
    apply NewTeam_Ret_colons in Ht. lia.
  - destruct (parse_groups_Ret _ _ _ Hgs Hs) as [c Hm].
    apply MakeChannel_Ret_slash in Hm. congruence.
  - destruct (parse_tokens_Ret _ _ _ Hes Hs) as [e He].
    apply parse_token_Ret in He as [H1 H2].
    destruct Hc; congruence.
Qed.

Lemma GetConfiguration_malformed_entry_is_fatal_witness :
  ((exists s, s ∈ Split (SLACKLINE_TEAMS (mkEnviron "T1:a:b," "T1/C1" "T1/C1:s")) ","
              /\ count_sep s ":" < 2) \/
   (exists s, s ∈ channel_strs (mkEnviron "T1:a:b," "T1/C1" "T1/C1:s")
              /\ Contains s "/" = false) \/
   (exists s, s ∈ Split (SLACKLINE_OUTBOUND_TOKENS
                           (mkEnviron "T1:a:b," "T1/C1" "T1/C1:s")) "," /\
              (Contains s ":" = false \/ Contains s "/" = false))) /\
  is_panic (GetConfiguration (mkEnviron "T1:a:b," "T1/C1" "T1/C1:s")).
Proof.
  assert (H : (exists s, s ∈ Split (SLACKLINE_TEAMS
                                      (mkEnviron "T1:a:b," "T1/C1" "T1/C1:s")) ","
                         /\ count_sep s ":" < 2) \/
   (exists s, s ∈ channel_strs (mkEnviron "T1:a:b," "T1/C1" "T1/C1:s")
              /\ Contains s "/" = false) \/
   (exists s, s ∈ Split (SLACKLINE_OUTBOUND_TOKENS
                           (mkEnviron "T1:a:b," "T1/C1" "T1/C1:s")) "," /\
              (Contains s ":" = false \/ Contains s "/" = false))).
  { left. exists "". split; [|simpl; lia].
    change ("" ∈ ["T1:a:b"; ""]). apply list_elem_of_further, list_elem_of_here. }
  split; [exact H|].
  exact (GetConfiguration_malformed_entry_is_fatal _ H).
Defined.

Lemma parse_channels_cons s strs cs :
  parse_channels (s :: strs) = Ret cs ->
  exists c cs', MakeChannel s = Ret c /\ parse_channels strs = Ret cs' /\ cs = c :: cs'.
Proof.
  simpl. intros H. inv_outcome H. inv_outcome H. inversion H; subst. eauto.
Qed.

(** A group of distinct channels, none mapped before, is loaded. *)
Lemma load_group_succeeds strs : forall key r cm (h : Arrays) arr cs,
  h !! r = Some arr ->
  key + length strs <= length arr ->
  parse_channels strs = Ret cs ->
  NoDup cs ->
  (forall c, c ∈ cs -> cm !! c = None) ->
  exists cm' h', load_group strs key r cm h = Ret (cm', h').
Proof.
  induction strs as [|s strs IH]; intros key r cm h arr cs Hr Hlen Hp Hnd Hfresh.
  - simpl. eauto.
  - apply parse_channels_cons in Hp as (c & cs' & Hc & Hp & ->).
    apply NoDup_cons in Hnd as [Hnotin Hnd]. simpl in Hlen.
    simpl. rewrite Hc. simpl. unfold store. rewrite Hr.
    rewrite decide_True by lia. simpl.
    rewrite (Hfresh c) by apply list_elem_of_here.
    apply (IH (S key) r _ _ (<[key := c]> arr) cs'); auto.
    + apply list_lookup_insert_eq. by apply lookup_lt_Some in Hr.
    + rewrite length_insert. lia.
    + intros c' Hc'. rewrite lookup_insert_ne.
      * apply Hfresh. by apply list_elem_of_further.
      * intros ->. contradiction.
Qed.

Lemma fresh_array (h : Arrays) n :
  (h ++ [replicate n zero_Channel]) !! length h = Some (replicate n zero_Channel).
Proof. by rewrite lookup_app_r, Nat.sub_diag by lia. Qed.

Lemma load_groups_succeeds gstrs : forall cm (h : Arrays) gs,
  parse_groups gstrs = Ret gs ->
  NoDup (concat gs) ->
  (forall c, c ∈ concat gs -> cm !! c = None) ->
  exists cm' h', load_groups gstrs cm h = Ret (cm', h').
Proof.
  induction gstrs as [|gstr gstrs IH]; intros cm h gs Hp Hnd Hfresh.
  - simpl. eauto.
  - simpl in Hp. inv_outcome Hp. rename x into cs. inv_outcome Hp.
    rename x into gs'.
    inversion Hp; subst gs; clear Hp. simpl in Hnd, Hfresh.
    apply NoDup_app in Hnd as (Hnd1 & Hdisj & Hnd2).
    destruct (load_group_succeeds (Split gstr ":") 0 (length h) cm
                (h ++ [replicate (length (Split gstr ":")) zero_Channel])
                _ cs (fresh_array h _)) as (cm1 & h1 & E1); auto.
    { by rewrite length_replicate. }
    { intros c Hc. apply Hfresh, elem_of_app. auto. }
    simpl. rewrite E1. simpl.
    apply (load_group_Ret _ _ _ _ _ _ _ _ (fresh_array h _)) in E1
      as (cs' & Hp' & _ & _ & Hcm & _); [|by rewrite length_replicate].
    rewrite E in Hp'. inversion Hp'; subst cs'.
    apply (IH cm1 h1 gs'); auto.
    intros c Hc. rewrite Hcm. rewrite decide_False.
    + apply Hfresh, elem_of_app. auto.
    + intros Hin. by apply (Hdisj c).
Qed.

(** X8. [GetConfiguration] returns exactly when every team entry, every
    channel of the channel map and every token entry is well-formed and no
    channel occurs twice in the channel map; the arrays it leaves are then
    the configured groups. *)
Theorem GetConfiguration_returns_iff (env : Environ) :
  (exists cfg (heap : Arrays), GetConfiguration env = Ret (cfg, heap)) <->
  (exists ts gs es,
     configured_teams env = Ret ts /\
     configured_groups env = Ret gs /\
     NoDup (concat gs) /\
     configured_tokens env = Ret es).
Proof.
  split.
  - intros (cfg & heap & H).
    pose proof (GetConfiguration_parts _ _ _ H) as (ts & es & Hts & Hes & _).
    apply GetConfiguration_Ret in H as (Hgs & Hnd & _).
    by exists ts, heap, es.
  - intros (ts & gs & es & Hts & Hgs & Hnd & Hes).
    unfold GetConfiguration, configured_teams, configured_groups,
      configured_tokens in *.
    rewrite load_teams_spec, Hts. simpl.
    destruct (load_groups_succeeds _ ∅ [] gs Hgs Hnd) as (cm & h & E).
    { intros c _. apply lookup_empty. }
    rewrite E. simpl. rewrite load_tokens_spec, Hes. simpl. eauto.
Qed.

(** The first repeated channel of a group stops the loading, with the
    string that repeats it. *)
Lemma load_group_repeat before : forall strs key r cm (h : Arrays) arr c after,
  h !! r = Some arr ->
  key + length strs <= length arr ->
  parse_channels strs = Ret (before ++ c :: after) ->
  NoDup before ->
  (forall x, x ∈ before -> cm !! x = None) ->
  c ∈ before \/ is_Some (cm !! c) ->
  exists s, strs !! length before = Some s /\ MakeChannel s = Ret c /\
            load_group strs key r cm h = Panicked (AlreadyPresent s).
Proof.
  induction before as [|b before IH];
    intros strs key r cm h arr c after Hr Hlen Hp Hnd Hfresh Hrep;
    (destruct strs as [|s strs]; [simpl in Hp; discriminate|]);
    apply parse_channels_cons in Hp as (c0 & cs' & Hc & Hp & E);
    simpl in E; inversion E; subst c0 cs'; clear E; simpl in Hlen;
    simpl; rewrite Hc; simpl; unfold store; rewrite Hr;
    (rewrite decide_True by lia); simpl.
  - exists s. destruct Hrep as [Hrep|[v Hv]]; [by apply elem_of_nil in Hrep|].
    by rewrite Hv.
  - apply NoDup_cons in Hnd as [Hnotin Hnd].
    rewrite (Hfresh b) by apply list_elem_of_here.
    apply (IH strs (S key) r _ _ (<[key := b]> arr) c after); auto.
    + apply list_lookup_insert_eq. by apply lookup_lt_Some in Hr.
    + rewrite length_insert. lia.
    + intros x Hx. rewrite lookup_insert_ne.
      * apply Hfresh. by apply list_elem_of_further.
      * intros ->. contradiction.
    + rewrite lookup_insert_is_Some.
      destruct (decide (b = c)) as [->|Hne]; [auto|].
      destruct Hrep as [Hrep|Hrep]; [|auto].
      apply elem_of_cons in Hrep as [->|Hrep]; [done | auto].
Qed.

Lemma load_groups_repeat gstrs : forall before cm (h : Arrays) gs c after,
  parse_groups gstrs = Ret gs ->
  concat gs = before ++ c :: after ->
  NoDup before ->
  (forall x, x ∈ before -> cm !! x = None) ->
  c ∈ before \/ is_Some (cm !! c) ->
  exists s,
    concat (map (fun g => Split g ":") gstrs) !! length before = Some s /\
    MakeChannel s = Ret c /\
    load_groups gstrs cm h = Panicked (AlreadyPresent s).
Proof.
  induction gstrs as [|gstr gstrs IH];
    intros before cm h gs c after Hp Hcat Hnd Hfresh Hrep.
  - simpl in Hp. inversion Hp; subst gs. simpl in Hcat. by destruct before.
  - simpl in Hp. inv_outcome Hp. rename x into cs. inv_outcome Hp.
    rename x into gs'. inversion Hp; subst gs; clear Hp. simpl in Hcat.
    pose proof (parse_channels_length _ _ E) as Hlen.
    assert (Hcase : (exists k, cs = before ++ c :: k) \/
                    (exists k, before = cs ++ k /\ concat gs' = k ++ c :: after)).
    { apply app_eq_inv in Hcat as [(k & -> & Hk)|(k & -> & Hk)].
      - destruct k as [|c' k]; simpl in Hk.
        + right. exists []. rewrite !app_nil_r. by split.
        + inversion Hk; subst. eauto.
      - right. eauto. }
    simpl.
    destruct Hcase as [(k & ->)|(k & -> & Hk)].
    + destruct (load_group_repeat before (Split gstr ":") 0 (length h) cm
                  (h ++ [replicate (length (Split gstr ":")) zero_Channel])
                  _ c k (fresh_array h _)) as (s & Hs & Hc & Hpanic); auto.
      { by rewrite length_replicate. }
      exists s. rewrite Hpanic. split_and!; auto.
      by apply lookup_app_l_Some.
    + apply NoDup_app in Hnd as (Hnd1 & Hdisj & Hnd2).
      destruct (load_group_succeeds (Split gstr ":") 0 (length h) cm
                  (h ++ [replicate (length (Split gstr ":")) zero_Channel])
                  _ cs (fresh_array h _)) as (cm1 & h1 & E1); auto.
      { by rewrite length_replicate. }
      { intros x Hx. apply Hfresh, elem_of_app. auto. }
      rewrite E1. simpl.
      apply (load_group_Ret _ _ _ _ _ _ _ _ (fresh_array h _)) in E1
        as (cs' & Hp' & _ & _ & Hcm & _); [|by rewrite length_replicate].
      rewrite E in Hp'. inversion Hp'; subst cs'.
      destruct (IH k cm1 h1 gs' c after E0 Hk Hnd2) as (s & Hs & Hc & Hpanic).
      { intros x Hx. rewrite Hcm, decide_False.
        - apply Hfresh, elem_of_app. auto.
        - intros Hin. by apply (Hdisj x). }
      { destruct (decide (c ∈ cs)) as [Hin|Hnin].
        - right. rewrite Hcm, decide_True by done. by eexists.
        - destruct Hrep as [Hrep|Hrep].
          + apply elem_of_app in Hrep as [Hrep|Hrep]; [contradiction | auto].
          + right. by rewrite Hcm, decide_False. }
      exists s. rewrite Hpanic. split_and!; auto.
      rewrite length_app, lookup_app_r by lia.
      by replace (length cs + length k - length (Split gstr ":")) with (length k) by lia.
Qed.

(** X9. With well-formed teams and channel strings, the first channel that
    repeats an earlier one of the channel map makes [GetConfiguration]
    panic with the "already present" message for the string of that
    repeating occurrence; the token entries are not looked at. *)
Theorem GetConfiguration_names_first_repeat
    (env : Environ) ts gs (before : list Channel) c after :
  configured_teams env = Ret ts ->
  configured_groups env = Ret gs ->
  concat gs = before ++ c :: after ->
  NoDup before ->
  c ∈ before ->
  exists s,
    channel_strs env !! length before = Some s /\
    MakeChannel s = Ret c /\
    GetConfiguration env = Panicked (AlreadyPresent s).
Proof.
  intros Hts Hgs Hcat Hnd Hin.
  unfold GetConfiguration, configured_teams, configured_groups, channel_strs in *.
  destruct (load_groups_repeat _ before ∅ [] gs c after Hgs Hcat Hnd)
    as (s & Hs & Hc & Hpanic); [by intros | auto |].
  exists s. split_and!; auto.
  rewrite load_teams_spec, Hts. simpl. by rewrite Hpanic.
Qed.

Lemma GetConfiguration_names_first_repeat_witness :
  (configured_teams env_dup
   = Ret [mkTeam "T1" "xoxp-1" "B1/k1"; mkTeam "T2" "xoxp-2" "B2/k2";
          mkTeam "T3" "xoxp-3" "B3/k3"] /\
   configured_groups env_dup = Ret [[c11; c22]; [c33; c11]] /\
   concat [[c11; c22]; [c33; c11]] = [c11; c22; c33] ++ c11 :: [] /\
   NoDup [c11; c22; c33] /\
   c11 ∈ [c11; c22; c33]) /\
  exists s,
    channel_strs env_dup !! length [c11; c22; c33] = Some s /\
    MakeChannel s = Ret c11 /\
    GetConfiguration env_dup = Panicked (AlreadyPresent s).
Proof.
  assert (H1 : configured_teams env_dup
   = Ret [mkTeam "T1" "xoxp-1" "B1/k1"; mkTeam "T2" "xoxp-2" "B2/k2";
          mkTeam "T3" "xoxp-3" "B3/k3"]) by (vm_compute; reflexivity).
  assert (H2 : configured_groups env_dup = Ret [[c11; c22]; [c33; c11]])
    by (vm_compute; reflexivity).
  assert (H3 : concat [[c11; c22]; [c33; c11]] = [c11; c22; c33] ++ c11 :: [])
    by reflexivity.
  assert (H4 : NoDup [c11; c22; c33]).
  { apply (bool_decide_unpack _). vm_compute. exact I. }
  assert (H5 : c11 ∈ [c11; c22; c33]) by apply list_elem_of_here.
  split; [by repeat split|].
  exact (GetConfiguration_names_first_repeat env_dup _ _ _ c11 [] H1 H2 H3 H4 H5).
Defined.

(** ** Peers *)

(** X10. In a configuration that [GetConfiguration] has built, every
    channel that has peers is among its own peers, and each of its peers
    has the same peers, in the same order: the channel map is symmetric. *)
Theorem peers_shared_by_the_group env cfg (heap : Arrays) c c' :
  GetConfiguration env = Ret (cfg, heap) ->
  c' ∈ peers cfg heap c ->
  c ∈ peers cfg heap c /\
  peers cfg heap c' = peers cfg heap c /\
  c ∈ peers cfg heap c'.
Proof.
  intros H Hin.
  pose proof (GetConfiguration_Ret _ _ _ H) as (_ & _ & Hmap & Hout).
  assert (Hc : c ∈ concat heap).
  { destruct (decide (c ∈ concat heap)) as [|Hn]; [done|].
    unfold peers in Hin. rewrite (Hout c Hn) in Hin.
    by apply elem_of_nil in Hin. }
  apply elem_of_concat in Hc as (g & Hg & Hcg).
  assert (Hp : peers cfg heap c = g) by (eapply peers_of_member; eauto).
  rewrite Hp in *.
  assert (Hp' : peers cfg heap c' = g) by (eapply peers_of_member; eauto).
  rewrite Hp'. auto.
Qed.

Lemma peers_shared_by_the_group_witness :
  (GetConfiguration env1 = Ret (config_of env1, arrays_of env1) /\
   c33 ∈ peers (config_of env1) (arrays_of env1) c22) /\
  c22 ∈ peers (config_of env1) (arrays_of env1) c22 /\
  peers (config_of env1) (arrays_of env1) c33
  = peers (config_of env1) (arrays_of env1) c22 /\
  c22 ∈ peers (config_of env1) (arrays_of env1) c33.
Proof.
  assert (H1 : GetConfiguration env1 = Ret (config_of env1, arrays_of env1))
    by (vm_compute; reflexivity).
  assert (H2 : c33 ∈ peers (config_of env1) (arrays_of env1) c22).
  { change (c33 ∈ [c11; c22; c33]).
    apply list_elem_of_further, list_elem_of_further, list_elem_of_here. }
  split; [by split|].
  exact (peers_shared_by_the_group env1 _ _ c22 c33 H1 H2).
Defined.

(** X11. In a configuration that [GetConfiguration] has built, forwarding
    from a channel that is in no configured group calls the delivery
    function for nothing and changes nothing. *)
Theorem Forward_from_ungrouped_channel
    env cfg (heap : Arrays) gs c (f : Channel -> M unit) (σ : State) :
  GetConfiguration env = Ret (cfg, heap) ->
  configured_groups env = Ret gs ->
  c ∉ concat gs ->
  Forward cfg heap c f σ = (Ret (), σ).
Proof.
  intros H Hgs Hc.
  pose proof (GetConfiguration_Ret _ _ _ H) as (Hh & _).
  rewrite Hgs in Hh. inversion Hh; subst gs.
  unfold Forward. by rewrite (peers_of_stranger _ _ _ _ H Hc).
Qed.

Lemma Forward_from_ungrouped_channel_witness :
  (GetConfiguration env1 = Ret (config_of env1, arrays_of env1) /\
   configured_groups env1 = Ret [[c11; c22; c33]] /\
   c99 ∉ concat [[c11; c22; c33]]) /\
  Forward (config_of env1) (arrays_of env1) c99 record_delivery start
  = (Ret (), start).
Proof.
  assert (H1 : GetConfiguration env1 = Ret (config_of env1, arrays_of env1))
    by (vm_compute; reflexivity).
  assert (H2 : configured_groups env1 = Ret [[c11; c22; c33]])
    by (vm_compute; reflexivity).
  assert (H3 : c99 ∉ concat [[c11; c22; c33]]).
  { apply (bool_decide_unpack _). vm_compute. exact I. }
  split; [by repeat split|].
  exact (Forward_from_ungrouped_channel env1 _ _ _ c99 record_delivery start
           H1 H2 H3).
Defined.


(** ** Posting *)

Lemma posts_app evs evs' : posts (evs ++ evs') = posts evs ++ posts evs'.
Proof. apply omap_app. Qed.

Lemma posts_internal evs : Forall internal evs -> posts evs = [].
Proof.
  induction 1 as [|e evs He _ IH]; [done|].
  destruct e; simpl in He; try contradiction; exact IH.
Qed.

Lemma appends_posts {A} (m : M A) σ :
  appends internal m -> posts (events (m σ).2) = posts (events σ).
Proof.
  intros Hm. destruct (Hm σ) as (evs & -> & F).
  by rewrite posts_app, (posts_internal evs F), app_nil_r.
Qed.

Lemma linked_linked m : linked (linked m) = linked m.
Proof. done. Qed.

(** X12. With the team of the destination registered, [WebhookPostMessage]
    posts once, to the team's webhook URL and with [link_names] set in the
    message, and returns: nil exactly when the transport answers with
    status 200, the transport's error when there is one, and otherwise
    the error made of the status line, [" - "] and the response body. *)
Theorem WebhookPostMessage_result cfg transport (o : Channel) (t : Team) (σ : State) :
  GetTeam cfg o = Some t ->
  (WebhookPostMessage cfg transport o σ).1
  = Ret (match transport (events σ) (webhook_url t) (linked (msg σ)) with
         | TransportError err => Some err
         | Response code status body =>
             if decide (code = 200%Z) then None
             else Some (status +:+ " - " +:+ body)
         end) /\
  posts (events (WebhookPostMessage cfg transport o σ).2)
  = posts (events σ) ++ [(o, webhook_url t, linked (msg σ))] /\
  msg (WebhookPostMessage cfg transport o σ).2 = linked (msg σ).
Proof.
  intros Ht. unfold WebhookPostMessage. rewrite Ht.
  unfold payload, http_Post, mbind, M_bind, mret, M_ret, get_msg, set_msg, emit.
  cbn [events msg fst snd].
  fold (webhook_url t). fold (linked (msg σ)).
  destruct (transport _ _ _) as [err|code status b]; cbn [events msg fst snd].
  - rewrite !posts_app. simpl. by rewrite app_nil_r.
  - destruct (decide (code = 200%Z)) as [->|Hne].
    + rewrite decide_False by (intros H; by apply H).
      cbn [events msg fst snd]. rewrite ?posts_app. by simpl.
    + rewrite decide_True by done. cbn [events msg fst snd].
      rewrite !posts_app. simpl. by rewrite app_nil_r.
Qed.

Lemma WebhookPostMessage_result_witness :
  GetTeam (config_of env1) c22 = Some (mkTeam "T2" "xoxp-2" "B2/k2") /\
  (WebhookPostMessage (config_of env1)
     (fun _ _ _ => Response 404 "404 Not Found" "no_team") c22 start).1
  = Ret (Some "404 Not Found - no_team").
Proof.
  assert (H : GetTeam (config_of env1) c22 = Some (mkTeam "T2" "xoxp-2" "B2/k2"))
    by (vm_compute; reflexivity).
  split; [exact H|].
  exact (proj1 (WebhookPostMessage_result (config_of env1)
                  (fun _ _ _ => Response 404 "404 Not Found" "no_team")
                  c22 _ start H)).
Defined.

Lemma for_range_deliver_step cfg transport o (l : list Channel) σ :
  for_range (o :: l) (deliver cfg transport) σ
  = match WebhookPostMessage cfg transport o σ with
    | (Ret _, σ') => for_range l (deliver cfg transport) σ'
    | (Panicked p, σ') => (Panicked p, σ')
    end.
Proof.
  cbn [for_range]. unfold mbind, M_bind.
  change (deliver cfg transport o σ)
    with ((WebhookPostMessage cfg transport o;; mret ()) σ).
  unfold mbind, M_bind.
  destruct (WebhookPostMessage cfg transport o σ) as [[r|p] σ']; reflexivity.
Qed.

(** The loop of [Forward] over [l]: it posts to the channels of [l] in
    order, each at the webhook of its team and with the same body, and
    stops, with a panic, at the first channel whose team is not
    registered. *)
Lemma for_range_posts cfg transport (l : list Channel) : forall σ,
  exists l1 l2,
    l = l1 ++ l2 /\
    posts (events (for_range l (deliver cfg transport) σ).2)
    = posts (events σ) ++ map (fun o => (o, url_of cfg o, linked (msg σ))) l1 /\
    (((for_range l (deliver cfg transport) σ).1 = Ret () /\ l2 = []) \/
     ((for_range l (deliver cfg transport) σ).1 = Panicked NilDereference /\
      exists o rest, l2 = o :: rest /\ GetTeam cfg o = None)).
Proof.
  induction l as [|o l IH]; intros σ.
  - exists [], []. simpl. rewrite app_nil_r. auto.
  - rewrite for_range_deliver_step.
    destruct (GetTeam cfg o) as [t|] eqn:Ht.
    + destruct (WebhookPostMessage_run cfg transport o t σ Ht)
        as (r & logs & E & F).
      rewrite E.
      destruct (IH (mkState (events σ ++ EvPost o (webhook_url t) (linked (msg σ)) :: logs)
                            (linked (msg σ)))) as (l1 & l2 & -> & Hp & Hr).
      exists (o :: l1), l2. split; [done|]. split; [|exact Hr].
      rewrite Hp. cbn [events msg]. rewrite linked_linked.
      rewrite posts_app. simpl. rewrite (posts_internal logs F).
      unfold url_of at 2. rewrite Ht. by rewrite <- app_assoc.
    + exists [], (o :: l). unfold WebhookPostMessage. rewrite Ht.
      unfold throw. simpl. rewrite app_nil_r.
      split_and!; [done..|]. right. eauto.
Qed.

(** ** The handler, step by step *)

Lemma bridge_run cfg (heap : Arrays) users_info transport
    (c : gmap string string) (σ : State) :
  bridge cfg heap users_info transport c σ
  = let σ1 := mkState (events σ ++ [EvStatus 200]) (message_of c) in
    if VerifyToken cfg (msgChannel (message_of c)) (PostForm c "token") then
      if decide (PostForm c "user_name" = "slackbot") then (Ret (), σ1)
      else
        match FetchUserIcon cfg users_info σ1 with
        | (Ret _, σ2) =>
            match RewriteMentions cfg users_info σ2 with
            | (Ret _, σ3) =>
                Forward cfg heap (msgChannel (msg σ3)) (deliver cfg transport) σ3
            | (Panicked p, σ3) => (Panicked p, σ3)
            end
        | (Panicked p, σ2) => (Panicked p, σ2)
        end
    else
      (Ret (), mkState (events σ ++ [EvStatus 200;
                                     EvLog (LogIncorrectToken (PostForm c "token"))])
                       (message_of c)).
Proof.
  unfold bridge. fold (message_of c).
  unfold mbind at 1, M_bind at 1. cbn [set_msg events msg].
  unfold mbind at 1, M_bind at 1. cbn [emit events msg].
  unfold mbind at 1, M_bind at 1. cbn [get_msg events msg].
  destruct (VerifyToken cfg _ _); cbn [negb].
  - unfold mbind at 1, M_bind at 1. cbn [get_msg events msg message_of Username].
    destruct (decide (PostForm c "user_name" = "slackbot")); [reflexivity|].
    unfold mbind at 1, M_bind at 1. fold (message_of c).
    destruct (FetchUserIcon cfg users_info _) as [[r2|p2] σ2]; [|reflexivity].
    unfold mbind at 1, M_bind at 1.
    destruct (RewriteMentions cfg users_info σ2) as [[r3|p3] σ3]; reflexivity.
  - unfold emit. cbn [events msg]. by rewrite <- app_assoc.
Qed.

(** [FetchUserIcon] changes at most the avatar. *)
Lemma FetchUserIcon_fields cfg users_info σ :
  let σ' := (FetchUserIcon cfg users_info σ).2 in
  msgChannel (msg σ') = msgChannel (msg σ) /\
  Username (msg σ') = Username (msg σ) /\
  Text (msg σ') = Text (msg σ).
Proof.
  unfold FetchUserIcon, mbind, M_bind, get_msg, set_msg, GetUserInfo.
  cbn [events msg].
  destruct (GetTeam cfg (msgChannel (msg σ))) as [t|]; [|done].
  cbn [events msg].
  by destruct (users_info _ _ _) as [[u|] [e|]].
Qed.

(** The posts of a run of the handler, as records: where they go, and
    the record that is marshalled for each. *)
Lemma bridge_posts_records
    cfg (heap : Arrays) users_info transport (c : gmap string string) (σ : State) :
  exists l1 l2 body,
    filter (fun o => msgChannel (message_of c) ≠ o)
           (peers cfg heap (msgChannel (message_of c))) = l1 ++ l2 /\
    posts (events (bridge cfg heap users_info transport c σ).2)
    = posts (events σ) ++ map (fun o => (o, url_of cfg o, body)) l1 /\
    msgChannel body = msgChannel (message_of c) /\
    Username body = PostForm c "user_name" /\
    LinkNames body = true.
Proof.
  set (origin := msgChannel (message_of c)).
  set (others := filter (fun o => origin ≠ o) (peers cfg heap origin)).
  assert (Hnone : forall σ' : State,
            posts (events σ') = posts (events σ) ->
            exists l1 l2 body,
              others = l1 ++ l2 /\
              posts (events σ') = posts (events σ) ++ map (fun o => (o, url_of cfg o, body)) l1 /\
              msgChannel body = origin /\
              Username body = PostForm c "user_name" /\
              LinkNames body = true).
  { intros σ' E. exists [], others, (linked (message_of c)).
    simpl. by rewrite app_nil_r. }
  rewrite bridge_run. cbv zeta.
  set (σ1 := mkState (events σ ++ [EvStatus 200]) (message_of c)).
  assert (P1 : posts (events σ1) = posts (events σ)).
  { unfold σ1. cbn [events]. rewrite posts_app. simpl. by rewrite app_nil_r. }
  destruct (VerifyToken cfg _ _).
  2: { apply Hnone. cbn [snd events]. rewrite posts_app. simpl.
       by rewrite app_nil_r. }
  destruct (decide _); [by apply Hnone|].
  pose proof (appends_posts (FetchUserIcon cfg users_info) σ1
                (appends_FetchUserIcon internal cfg users_info (fun e H => H))) as P2.
  pose proof (FetchUserIcon_fields cfg users_info σ1) as (C2 & U2 & _).
  destruct (FetchUserIcon cfg users_info σ1) as [[r2|p2] σ2]; cbn [snd] in *.
  2: { apply Hnone. congruence. }
  pose proof (appends_posts (RewriteMentions cfg users_info) σ2
                (appends_RewriteMentions internal cfg users_info (fun e H => H))) as P3.
  pose proof (RewriteMentions_fields cfg users_info σ2) as (C3 & U3 & _).
  destruct (RewriteMentions cfg users_info σ2) as [[r3|p3] σ3]; cbn [snd] in *.
  2: { apply Hnone. congruence. }
  assert (Horigin : msgChannel (msg σ3) = origin) by (rewrite C3, C2; done).
  rewrite Horigin, Forward_filter. fold others.
  destruct (for_range_posts cfg transport others σ3) as (l1 & l2 & E & Hp & _).
  exists l1, l2, (linked (msg σ3)). split_and!; auto.
  - rewrite Hp. congruence.
  - simpl. by rewrite U3, U2.
Qed.

Lemma sent_app json_Marshal evs evs' :
  sent json_Marshal (evs ++ evs') = sent json_Marshal evs ++ sent json_Marshal evs'.
Proof. unfold sent. by rewrite posts_app, fmap_app. Qed.

Lemma sent_posts json_Marshal evs evs0 (f : Channel -> Channel * string * slackMessage)
    (l : list Channel) :
  posts evs = posts evs0 ++ map f l ->
  sent json_Marshal evs
  = sent json_Marshal evs0 ++
    map (fun o => ((f o).1.1, (f o).1.2, json_Marshal (f o).2)) l.
Proof.
  intros E. unfold sent. rewrite E, fmap_app. f_equal. clear E.
  induction l as [|o l IH]; [done|]. cbn. f_equal. exact IH.
Qed.

(** X13. In every run of the handler, whatever the request, the
    configuration and the answers of the Slack API and of the transport:
    the posts it makes go, in the order of the group, to the first so many
    of the peers of the origin channel other than the origin itself, each
    to the webhook URL of the peer's team; and the body of each is
    [json.Marshal] of one and the same record, whose channel is the origin
    channel, whose user name is the form's, and whose [LinkNames] is
    set. *)
Theorem bridge_posts_follow_the_peers
    (json_Marshal : slackMessage -> string)
    cfg (heap : Arrays) users_info transport (c : gmap string string) (σ : State) :
  exists l1 l2 record,
    filter (fun o => msgChannel (message_of c) ≠ o)
           (peers cfg heap (msgChannel (message_of c))) = l1 ++ l2 /\
    sent json_Marshal (events (bridge cfg heap users_info transport c σ).2)
    = sent json_Marshal (events σ) ++
      map (fun o => (o, url_of cfg o, json_Marshal record)) l1 /\
    msgChannel record = msgChannel (message_of c) /\
    Username record = PostForm c "user_name" /\
    LinkNames record = true.
Proof.
  destruct (bridge_posts_records cfg heap users_info transport c σ)
    as (l1 & l2 & record & E & Hp & Hrec).
  exists l1, l2, record. split; [done|]. split; [|done].
  by rewrite (sent_posts json_Marshal _ _ _ _ Hp).
Qed.

(** X14. A verified request, not from [slackbot], whose team is not
    registered makes the handler panic on the nil team, in the avatar
    lookup: the status is set, and there is no lookup and no post. *)
Theorem bridge_unregistered_origin_team
    cfg (heap : Arrays) users_info transport (c : gmap string string) (σ : State) :
  VerifyToken cfg (msgChannel (message_of c)) (PostForm c "token") = true ->
  PostForm c "user_name" ≠ "slackbot" ->
  GetTeam cfg (msgChannel (message_of c)) = None ->
  bridge cfg heap users_info transport c σ
  = (Panicked NilDereference,
     mkState (events σ ++ [EvStatus 200]) (message_of c)).
Proof.
  intros Hv Hu Ht. rewrite bridge_run. cbv zeta. rewrite Hv.
  rewrite decide_False by done.
  unfold FetchUserIcon, mbind, M_bind, get_msg. cbn [events msg].
  by rewrite Ht.
Qed.

Lemma bridge_unregistered_origin_team_witness :
  (VerifyToken (config_of (mkEnviron "T1:a:b" "T1/C1:T2/C2" "T2/C2:s2"))
     (msgChannel (message_of (request "T2" "C2" "bob" "hello" "s2")))
     (PostForm (request "T2" "C2" "bob" "hello" "s2") "token") = true /\
   PostForm (request "T2" "C2" "bob" "hello" "s2") "user_name" ≠ "slackbot" /\
   GetTeam (config_of (mkEnviron "T1:a:b" "T1/C1:T2/C2" "T2/C2:s2"))
     (msgChannel (message_of (request "T2" "C2" "bob" "hello" "s2"))) = None) /\
  bridge (config_of (mkEnviron "T1:a:b" "T1/C1:T2/C2" "T2/C2:s2"))
         (arrays_of (mkEnviron "T1:a:b" "T1/C1:T2/C2" "T2/C2:s2"))
         alice_for_all transport_ok
         (request "T2" "C2" "bob" "hello" "s2") start
  = (Panicked NilDereference,
     mkState [EvStatus 200] (mkMessage c22 "bob" "hello" "" false)).
Proof.
  assert (H1 : VerifyToken (config_of (mkEnviron "T1:a:b" "T1/C1:T2/C2" "T2/C2:s2"))
     (msgChannel (message_of (request "T2" "C2" "bob" "hello" "s2")))
     (PostForm (request "T2" "C2" "bob" "hello" "s2") "token") = true)
    by (vm_compute; reflexivity).
  assert (H2 : PostForm (request "T2" "C2" "bob" "hello" "s2") "user_name"
               ≠ "slackbot") by (vm_compute; discriminate).
  assert (H3 : GetTeam (config_of (mkEnviron "T1:a:b" "T1/C1:T2/C2" "T2/C2:s2"))
     (msgChannel (message_of (request "T2" "C2" "bob" "hello" "s2"))) = None)
    by (vm_compute; reflexivity).
  split; [by repeat split|].
  exact (bridge_unregistered_origin_team _ _ alice_for_all transport_ok
           (request "T2" "C2" "bob" "hello" "s2") start H1 H2 H3).
Defined.


(** ** Rewriting, token by token *)

Lemma RewriteMentions_no_match cfg users_info σ :
  no_match_in (Text (msg σ)) "" = true ->
  RewriteMentions cfg users_info σ = (Ret (), σ).
Proof.
  intros H. rewrite RewriteMentions_run. unfold ReplaceAllStringFunc.
  rewrite <- (append_nil_r (Text (msg σ))) at 1.
  rewrite scan_no_match by done. simpl. rewrite app_nil_r.
  rewrite replace_copies_only. by rewrite with_text_same.
Qed.

(** A text with one match: the replacement function is called once, on
    the match, and what it returns stands between the text before and the
    text after. *)
Lemma ReplaceAll_single repl (pre body post : string) σ :
  body ≠ "" -> Contains body ">" = false ->
  no_match_in pre (mention body +:+ post) = true ->
  no_match_in post "" = true ->
  ReplaceAllStringFunc (pre +:+ mention body +:+ post) repl σ
  = match repl (mention body) σ with
    | (Ret r, σ') => (Ret (pre +:+ r +:+ post), σ')
    | (Panicked p, σ') => (Panicked p, σ')
    end.
Proof.
  intros Hne Hc Hpre Hpost. unfold ReplaceAllStringFunc.
  rewrite scan_no_match by done. rewrite scan_mention by done.
  rewrite replace_copies. cbn [replace_segments]. unfold mbind, M_bind.
  destruct (repl (mention body) σ) as [[r|p] σ']; [|done].
  rewrite <- (append_nil_r post) at 1.
  rewrite scan_no_match by done. simpl. rewrite app_nil_r.
  by rewrite replace_copies_only.
Qed.

(** A plain message relayed, as records. *)
Lemma bridge_relays_plain_message_records
    cfg (heap : Arrays) users_info transport (c : gmap string string) (σ : State)
    (t : Team) (u : User) :
  VerifyToken cfg (msgChannel (message_of c)) (PostForm c "token") = true ->
  PostForm c "user_name" ≠ "slackbot" ->
  GetTeam cfg (msgChannel (message_of c)) = Some t ->
  users_info (events σ ++ [EvStatus 200]) (Client t) (PostForm c "user_name")
    = (Some u, None) ->
  no_match_in (PostForm c "text") "" = true ->
  (forall o, o ∈ peers cfg heap (msgChannel (message_of c)) ->
             o ≠ msgChannel (message_of c) -> is_Some (GetTeam cfg o)) ->
  (bridge cfg heap users_info transport c σ).1 = Ret () /\
  posts (events (bridge cfg heap users_info transport c σ).2)
  = posts (events σ) ++
    map (fun o => (o, url_of cfg o,
                   mkMessage (msgChannel (message_of c)) (PostForm c "user_name")
                             (PostForm c "text") (ImageOriginal (Profile u)) true))
        (filter (fun o => msgChannel (message_of c) ≠ o)
                (peers cfg heap (msgChannel (message_of c)))).
Proof.
  intros Hv Hu Ht Hui Htext Hreg.
  rewrite bridge_run. cbv zeta. rewrite Hv. rewrite decide_False by done.
  set (origin := msgChannel (message_of c)) in *.
  set (m2 := mkMessage origin (PostForm c "user_name") (PostForm c "text")
                       (ImageOriginal (Profile u)) false).
  set (σ2 := mkState (events σ ++ [EvStatus 200;
                                   EvGetUserInfo (Client t) (PostForm c "user_name")])
                     m2).
  assert (Hfetch : FetchUserIcon cfg users_info
                     (mkState (events σ ++ [EvStatus 200]) (message_of c))
                   = (Ret None, σ2)).
  { unfold FetchUserIcon, mbind, M_bind, get_msg, set_msg.
    cbn [events msg]. fold origin. rewrite Ht. cbn [GetUserInfo events msg].
    cbn [message_of Username]. rewrite Hui. cbn [fst snd events msg].
    unfold σ2. by rewrite <- app_assoc. }
  rewrite Hfetch. rewrite RewriteMentions_no_match by done.
  change (msgChannel (msg σ2)) with origin. rewrite Forward_filter.
  destruct (for_range_posts cfg transport
              (filter (fun o => origin ≠ o) (peers cfg heap origin)) σ2)
    as (l1 & l2 & E & Hp & Hr).
  assert (Hp2 : posts (events σ2) = posts (events σ)).
  { unfold σ2. cbn [events]. rewrite posts_app. simpl. by rewrite app_nil_r. }
  destruct Hr as [[Hr ->]|(Hr & o & rest & -> & Hnone)].
  - rewrite app_nil_r in E. rewrite Hr, Hp, Hp2, E. done.
  - exfalso. assert (Ho : o ∈ filter (fun o => origin ≠ o) (peers cfg heap origin)).
    { rewrite E. apply elem_of_app. right. apply list_elem_of_here. }
    apply list_elem_of_filter in Ho as [Hne Ho].
    destruct (Hreg o Ho) as [t' Ht']; [congruence|]. congruence.
Qed.

(** X15. A verified request, not from [slackbot], with the origin team
    registered, a successful avatar lookup, a text in which no mention
    token begins, and the teams of the peers registered: the handler
    returns, having posted to every peer other than the origin, in the
    group's order, at the webhook URL of the peer's team, a body that is
    [json.Marshal] of the record holding the origin channel, the user name
    and the text of the form, the looked-up avatar and [LinkNames] set,
    whatever the transport answers. *)
Theorem bridge_relays_plain_message
    (json_Marshal : slackMessage -> string)
    cfg (heap : Arrays) users_info transport (c : gmap string string) (σ : State)
    (t : Team) (u : User) :
  VerifyToken cfg (msgChannel (message_of c)) (PostForm c "token") = true ->
  PostForm c "user_name" ≠ "slackbot" ->
  GetTeam cfg (msgChannel (message_of c)) = Some t ->
  users_info (events σ ++ [EvStatus 200]) (Client t) (PostForm c "user_name")
    = (Some u, None) ->
  no_match_in (PostForm c "text") "" = true ->
  (forall o, o ∈ peers cfg heap (msgChannel (message_of c)) ->
             o ≠ msgChannel (message_of c) -> is_Some (GetTeam cfg o)) ->
  (bridge cfg heap users_info transport c σ).1 = Ret () /\
  sent json_Marshal (events (bridge cfg heap users_info transport c σ).2)
  = sent json_Marshal (events σ) ++
    map (fun o => (o, url_of cfg o,
                   json_Marshal
                     (mkMessage (msgChannel (message_of c)) (PostForm c "user_name")
                                (PostForm c "text") (ImageOriginal (Profile u)) true)))
        (filter (fun o => msgChannel (message_of c) ≠ o)
                (peers cfg heap (msgChannel (message_of c)))).
Proof.
  intros Hv Hu Ht Hui Htext Hreg.
  destruct (bridge_relays_plain_message_records cfg heap users_info transport
              c σ t u Hv Hu Ht Hui Htext Hreg) as [Hr Hp].
  split; [done|]. by rewrite (sent_posts json_Marshal _ _ _ _ Hp).
Qed.

Lemma bridge_relays_plain_message_witness :
  (VerifyToken (config_of env1)
     (msgChannel (message_of (request "T1" "C1" "bob" "hello" "s1")))
     (PostForm (request "T1" "C1" "bob" "hello" "s1") "token") = true /\
   PostForm (request "T1" "C1" "bob" "hello" "s1") "user_name" ≠ "slackbot" /\
   GetTeam (config_of env1)
     (msgChannel (message_of (request "T1" "C1" "bob" "hello" "s1")))
   = Some (mkTeam "T1" "xoxp-1" "B1/k1") /\
   alice_for_all ([] ++ [EvStatus 200]) "xoxp-1" "bob"
   = (Some (mkUser "alice" (mkProfile "http://img/alice")), None) /\
   no_match_in "hello" "" = true) /\
  (bridge (config_of env1) (arrays_of env1) alice_for_all transport_down
          (request "T1" "C1" "bob" "hello" "s1") start).1 = Ret () /\
  sent (fun m => Username m +:+ ": " +:+ Text m)
       (events (bridge (config_of env1) (arrays_of env1) alice_for_all
                       transport_down
                       (request "T1" "C1" "bob" "hello" "s1") start).2)
  = [(c22, "https://hooks.slack.com/services//T2/B2/k2", "bob: hello");
     (c33, "https://hooks.slack.com/services//T3/B3/k3", "bob: hello")].
Proof.
  assert (H1 : VerifyToken (config_of env1)
     (msgChannel (message_of (request "T1" "C1" "bob" "hello" "s1")))
     (PostForm (request "T1" "C1" "bob" "hello" "s1") "token") = true)
    by (vm_compute; reflexivity).
  assert (H2 : PostForm (request "T1" "C1" "bob" "hello" "s1") "user_name"
               ≠ "slackbot") by (vm_compute; discriminate).
  assert (H3 : GetTeam (config_of env1)
     (msgChannel (message_of (request "T1" "C1" "bob" "hello" "s1")))
     = Some (mkTeam "T1" "xoxp-1" "B1/k1")) by (vm_compute; reflexivity).
  assert (H4 : alice_for_all ([] ++ [EvStatus 200]) "xoxp-1" "bob"
               = (Some (mkUser "alice" (mkProfile "http://img/alice")), None))
    by reflexivity.
  assert (H5 : no_match_in "hello" "" = true) by reflexivity.
  assert (H6 : forall o,
             o ∈ peers (config_of env1) (arrays_of env1)
                   (msgChannel (message_of (request "T1" "C1" "bob" "hello" "s1"))) ->
             o ≠ msgChannel (message_of (request "T1" "C1" "bob" "hello" "s1")) ->
             is_Some (GetTeam (config_of env1) o)).
  { intros o Ho _. change (o ∈ [c11; c22; c33]) in Ho.
    repeat (apply elem_of_cons in Ho as [->|Ho]; [by eexists|]).
    by apply elem_of_nil in Ho. }
  split; [by repeat split|].
  destruct (bridge_relays_plain_message (fun m => Username m +:+ ": " +:+ Text m)
              (config_of env1) (arrays_of env1)
              alice_for_all transport_down
              (request "T1" "C1" "bob" "hello" "s1") start _ _
              H1 H2 H3 H4 H5 H6) as [Hr Hp].
  split; [exact Hr|]. rewrite Hp. vm_compute. reflexivity.
Defined.

(** X16. What [RewriteMentions] does with a text holding one token
    [<@id>] without an inline name, the origin team being registered: it
    looks the user up once; when the lookup returns no error, it logs
    "Unable to map" and the token becomes [@id]; when the lookup returns
    an error and a user, the token becomes [@] and that user's name;
    when it returns an error and no user, the rewriting panics and the
    text is left as it was. *)
Theorem RewriteMentions_plain_token
    cfg users_info (pre id post : string) (σ : State) (t : Team) :
  id ≠ "" -> Contains id "|" = false -> Contains id ">" = false ->
  no_match_in pre (mention id +:+ post) = true ->
  no_match_in post "" = true ->
  Text (msg σ) = pre +:+ mention id +:+ post ->
  GetTeam cfg (msgChannel (msg σ)) = Some t ->
  RewriteMentions cfg users_info σ
  = match users_info (events σ) (Client t) id with
    | (_, None) =>
        (Ret (), mkState (events σ ++ [EvGetUserInfo (Client t) id;
                                       EvLog (LogUnableToMap id None)])
                         (with_text (msg σ) (pre +:+ "@" +:+ id +:+ post)))
    | (Some u, Some _) =>
        (Ret (), mkState (events σ ++ [EvGetUserInfo (Client t) id])
                         (with_text (msg σ) (pre +:+ "@" +:+ Name u +:+ post)))
    | (None, Some _) =>
        (Panicked NilDereference,
         mkState (events σ ++ [EvGetUserInfo (Client t) id]) (msg σ))
    end.
Proof.
  intros Hne Hp Hc Hpre Hpost Htext Ht.
  rewrite RewriteMentions_run, Htext, ReplaceAll_single by done.
  rewrite (rewrite_mention_lookup cfg users_info id t σ Hp Ht). cbv zeta.
  destruct (users_info _ _ _) as [[u|] [e|]]; cbn [events msg];
    rewrite <- ?app_assoc; reflexivity.
Qed.

Lemma RewriteMentions_plain_token_witness :
  ("U123" ≠ "" /\ Contains "U123" "|" = false /\ Contains "U123" ">" = false /\
   no_match_in "hi " (mention "U123" +:+ "!") = true /\
   no_match_in "!" "" = true /\
   GetTeam (config_of env1) c11 = Some (mkTeam "T1" "xoxp-1" "B1/k1")) /\
  RewriteMentions (config_of env1) stale_user
    (mkState [] (mkMessage c11 "bob" "hi <@U123>!" "" false))
  = (Ret (), mkState [EvGetUserInfo "xoxp-1" "U123"]
                     (mkMessage c11 "bob" "hi @ghost!" "" false)).
Proof.
  assert (H1 : "U123" ≠ "") by discriminate.
  assert (H7 : GetTeam (config_of env1) c11 = Some (mkTeam "T1" "xoxp-1" "B1/k1"))
    by (vm_compute; reflexivity).
  split; [by repeat split|].
  exact (RewriteMentions_plain_token (config_of env1) stale_user
           "hi " "U123" "!"
           (mkState [] (mkMessage c11 "bob" "hi <@U123>!" "" false)) _
           H1 eq_refl eq_refl eq_refl eq_refl eq_refl H7).
Defined.

(** X17. With the origin team not registered, a text holding a token
    without an inline name makes [RewriteMentions] panic on the nil team,
    before any lookup, and the message is left as it was. *)
Theorem RewriteMentions_unregistered_team
    cfg users_info (pre id post : string) (σ : State) :
  id ≠ "" -> Contains id "|" = false -> Contains id ">" = false ->
  no_match_in pre (mention id +:+ post) = true ->
  no_match_in post "" = true ->
  Text (msg σ) = pre +:+ mention id +:+ post ->
  GetTeam cfg (msgChannel (msg σ)) = None ->
  RewriteMentions cfg users_info σ = (Panicked NilDereference, σ).
Proof.
  intros Hne Hp Hc Hpre Hpost Htext Ht.
  rewrite RewriteMentions_run, Htext, ReplaceAll_single by done.
  unfold rewrite_mention.
  unfold mbind at 1, M_bind at 1, lift. rewrite slice_mention, Hp.
  unfold mbind, M_bind, get_msg. by rewrite Ht.
Qed.

Lemma RewriteMentions_unregistered_team_witness :
  ("U123" ≠ "" /\ Contains "U123" "|" = false /\ Contains "U123" ">" = false /\
   no_match_in "hi " (mention "U123" +:+ "!") = true /\
   no_match_in "!" "" = true /\
   GetTeam (config_of env1) c99 = None) /\
  RewriteMentions (config_of env1) alice_for_all
    (mkState [] (mkMessage c99 "bob" "hi <@U123>!" "" false))
  = (Panicked NilDereference,
     mkState [] (mkMessage c99 "bob" "hi <@U123>!" "" false)).
Proof.
  assert (H1 : "U123" ≠ "") by discriminate.
  assert (H7 : GetTeam (config_of env1) c99 = None) by (vm_compute; reflexivity).
  split; [by repeat split|].
  exact (RewriteMentions_unregistered_team (config_of env1) alice_for_all
           "hi " "U123" "!"
           (mkState [] (mkMessage c99 "bob" "hi <@U123>!" "" false))
           H1 eq_refl eq_refl eq_refl eq_refl eq_refl H7).
Defined.

(** ** Panics of the rewriting *)

(** Every match the pass finds is a token of the regular expression. *)
Lemma scan_found (s : string) : forall skip m,
  Found m ∈ scan s skip ->
  exists body, m = mention body /\ body ≠ "" /\ Contains body ">" = false.
Proof.
  induction s as [|a s IH]; intros skip m Hin.
  - by apply elem_of_nil in Hin.
  - destruct skip as [|k]; [|by apply (IH k)].
    rewrite scan_unfold in Hin.
    destruct (match_at (String a s)) as [m0|] eqn:E.
    + apply elem_of_cons in Hin as [[= ->]|Hin]; [|by eapply IH].
      apply match_at_Some in E as (body & rest & Hne & Hc & -> & _). eauto.
    + apply elem_of_cons in Hin as [Hin|Hin]; [discriminate | by apply (IH 0)].
Qed.

Lemma rewrite_mention_ret_or_nil cfg users_info (body : string) σ :
  ret_or_nil (rewrite_mention cfg users_info (mention body) σ).1.
Proof.
  unfold rewrite_mention.
  unfold mbind at 1, M_bind at 1, lift. rewrite slice_mention.
  destruct (Contains body "|") eqn:C.
  - unfold mbind, M_bind, lift.
    destruct (index_Split body "|" 1) as [(_ & p & ->)|[Hlt _]]; [exact I|].
    assert (count_sep body "|" = 0) as Hz by lia.
    apply Contains_count in Hz. congruence.
  - unfold mbind, M_bind, get_msg.
    destruct (GetTeam cfg (msgChannel (msg σ))) as [t|]; [|reflexivity].
    cbn [GetUserInfo]. by destruct (users_info _ _ _) as [[u|] [e|]].
Qed.

Lemma replace_segments_ret_or_nil segs (repl : string -> M string) :
  (forall m σ, Found m ∈ segs -> ret_or_nil (repl m σ).1) ->
  forall σ, ret_or_nil (replace_segments segs repl σ).1.
Proof.
  induction segs as [|[a|m] segs IH]; intros Hrepl σ; [exact I|..];
    cbn [replace_segments]; unfold mbind, M_bind.
  - specialize (IH (fun m σ H => Hrepl m σ (list_elem_of_further _ _ _ H)) σ).
    by destruct (replace_segments segs repl σ) as [[out|p] σ'].
  - pose proof (Hrepl m σ (list_elem_of_here _ _)) as H1.
    destruct (repl m σ) as [[r|p] σ1]; [|exact H1].
    specialize (IH (fun m σ H => Hrepl m σ (list_elem_of_further _ _ _ H)) σ1).
    by destruct (replace_segments segs repl σ1) as [[out|p] σ'].
Qed.

(** X18. [RewriteMentions] returns, or panics with a nil dereference, and
    nothing else: whatever the text, what it cuts out of a match
    ([s[2 : len(s)-1]]) is within bounds, and a match with a separator
    has a second part, so there is no index out of range. *)
Theorem RewriteMentions_panics_only_on_nil cfg users_info (σ : State) :
  ret_or_nil (RewriteMentions cfg users_info σ).1.
Proof.
  rewrite RewriteMentions_run. unfold ReplaceAllStringFunc.
  assert (H : forall m σ', Found m ∈ scan (Text (msg σ)) 0 ->
                ret_or_nil (rewrite_mention cfg users_info m σ').1).
  { intros m σ' Hin. apply scan_found in Hin as (body & -> & _).
    apply rewrite_mention_ret_or_nil. }
  pose proof (replace_segments_ret_or_nil _ _ H σ) as Hr.
  by destruct (replace_segments _ _ σ) as [[text|p] σ'].
Qed.
